(** * Waterfall bar chart: the view model and bar geometry of [BarChart.update]

    A shallow embedding of [src/Source/customWaterfall/src/barChart.ts].

    Numbers.  A TypeScript [number] is an IEEE binary64 double.  The layout
    is modelled over exact rationals [Q]: finite values and exact
    arithmetic, without the rounding of doubles and without infinities.
    Where the source can produce [undefined] or [NaN] (the maximum of an
    empty array, a scale whose domain holds [undefined], a category the
    ordinal scale does not know) the value is an [option Q] and [None]
    stands for it.  The model-building loop is embedded a second time in
    module [Double], over the binary64 numbers of [PrimFloat] with their
    rounding addition, for the statements that depend on how the running
    total is rounded.

    Arrays.  [viewModel.dataPoints] is a JavaScript array that the loop of
    [update] mutates slot by slot; it is a [list] read with [!!] and written
    with [<[i:=x]>]. *)

From Stdlib Require Import QArith Qround Qabs Qminmax Lqa Floats.
From stdpp Require Import base list strings.

Local Open Scope Q_scope.

(** ** Data model *)

(** [interface BarChartDataPoint].  The field [end] of the source is
    [end_] here, [end] being reserved. *)
Record BarChartDataPoint := mkDataPoint {
  value : Q;
  category : string;
  start : Q;
  end_ : Q;
  class : string
}.

(** [interface BarChartViewModel].  [dataMax] is what [d3.max] returned:
    [None] is [undefined]. *)
Record BarChartViewModel := mkViewModel {
  dataPoints : list BarChartDataPoint;
  dataMax : option Q;
  dataMin : Q
}.

(** Field assignments [d.start = v], [d.end = v], [d.class = s]. *)
Definition set_start (v : Q) (d : BarChartDataPoint) : BarChartDataPoint :=
  mkDataPoint (value d) (category d) v (end_ d) (class d).

Definition set_end (v : Q) (d : BarChartDataPoint) : BarChartDataPoint :=
  mkDataPoint (value d) (category d) (start d) v (class d).

Definition set_class (s : string) (d : BarChartDataPoint) : BarChartDataPoint :=
  mkDataPoint (value d) (category d) (start d) (end_ d) s.

(** [BarChart.Config]. *)
Record Margins := mkMargins {
  top : Q;
  right : Q;
  bottom : Q;
  left : Q
}.

Record ConfigT := mkConfig {
  xScalePadding : Q;
  solidOpacity : Q;
  transparentOpacity : Q;
  margins : Margins;
  xAxisFontMultiplier : Q
}.

Definition Config : ConfigT :=
  {| xScalePadding := 1 # 10;
     solidOpacity := 1;
     transparentOpacity := 4 # 10;
     margins := {| top := 10; right := 0; bottom := 25; left := 45 |};
     xAxisFontMultiplier := 4 # 100 |}.

(** ** The model-building loop (lines 181-194) *)

(** One iteration of the [for] loop at index [i] with running total
    [cumulative]; the result is the new running total and the array.  The
    loop only runs the body for [i < length], so the slot exists. *)
Definition loop_body (i : nat) (cumulative : Q) (dps : list BarChartDataPoint)
  : Q * list BarChartDataPoint :=
  match dps !! i with
  | None => (cumulative, dps)
  | Some d =>
      let d := set_start cumulative d in
      let cumulative := cumulative + value d in
      let d := set_end cumulative d in
      let d := set_class (if Qle_bool 0 (value d) then "positive" else "negative") d in
      let d := if Nat.eqb i (length dps - 1)
               then set_end (value d) (set_start 0 d)
               else d in
      (cumulative, <[i:=d]> dps)
  end.

(** The loop [for (i = ...; i < length; i++)] with [n] iterations left: the
    body never changes the length of the array, so from index [i] the loop
    runs [length - i] times. *)
Fixpoint loop (n i : nat) (cumulative : Q) (dps : list BarChartDataPoint)
  : list BarChartDataPoint :=
  match n with
  | O => dps
  | S n' =>
      let '(cumulative', dps') := loop_body i cumulative dps in
      loop n' (S i) cumulative' dps'
  end.

(** [var cumulative = 0; for (var i = 0; i < dataPoints.length; i++) ...] *)
Definition precalculate (dps : list BarChartDataPoint) : list BarChartDataPoint :=
  loop (length dps) 0 0 dps.

(** ** The d3 functions [update] calls

    d3 is an external library, not a file of this repository.  The source
    uses the API of d3 version 3 ([d3.scale.linear], [d3.scale.ordinal],
    [rangeRoundBands], [d3.svg.axis]); the definitions of this module follow
    the functions of that release ([arrays/max.js], [arrays/min.js],
    [scale/linear.js], [scale/ordinal.js], [interpolate/number.js],
    [interpolate/uninterpolate.js]). *)
Module d3.

(** JavaScript's [a < b] on numbers. *)
Definition Qlt_bool (a b : Q) : bool := negb (Qle_bool b a).

(** [Math.floor] and [Math.round] (ties go up). *)
Definition Math_floor (x : Q) : Q := inject_Z (Qfloor x).
Definition Math_round (x : Q) : Q := inject_Z (Qfloor (x + (1 # 2))).

(** [d3.max(array)]: the first element seeds [a], every later [b] with
    [b > a] replaces it; an empty array leaves [a] undefined. *)
Fixpoint max_from (a : Q) (array : list Q) : Q :=
  match array with
  | [] => a
  | b :: rest => max_from (if Qlt_bool a b then b else a) rest
  end.

Definition max (array : list Q) : option Q :=
  match array with
  | [] => None
  | b :: rest => Some (max_from b rest)
  end.

(** [d3.min(array)], the mirror image with [a > b]. *)
Fixpoint min_from (a : Q) (array : list Q) : Q :=
  match array with
  | [] => a
  | b :: rest => min_from (if Qlt_bool b a then b else a) rest
  end.

Definition min (array : list Q) : option Q :=
  match array with
  | [] => None
  | b :: rest => Some (min_from b rest)
  end.

(** [d3_uninterpolateNumber(a, b)]: [b = (b -= a) || 1 / b] and then
    [x => (x - a) / b].  When [b - a] is zero the divisor is [Infinity]
    and the quotient of a finite number is [0]. *)
Definition uninterpolateNumber (a b x : Q) : Q :=
  if Qeq_bool (b - a) 0 then 0 else (x - a) / (b - a).

(** [d3_interpolateNumber(a, b)]: [t => a * (1 - t) + b * t]. *)
Definition interpolateNumber (a b t : Q) : Q := a * (1 - t) + b * t.

(** [d3.scale.linear().domain([d0, d1]).range([r0, r1])] applied to [x]
    (two-point domain, no clamping).  An undefined domain end makes every
    output [NaN]. *)
Definition scale_linear (domain : Q * option Q) (range : Q * Q) (x : Q)
  : option Q :=
  match domain.2 with
  | None => None
  | Some d1 =>
      Some (interpolateNumber range.1 range.2
              (uninterpolateNumber domain.1 d1 x))
  end.

(** The ordinal scale: its de-duplicated domain, the range computed by
    the ranger and the band width. *)
Record ordinal := mkOrdinal {
  o_domain : list string;
  o_range : list Q;
  o_rangeBand : Q
}.

(** [scale.domain(x)]: [if (!index.has(xi)) index.set(xi, domain.push(xi))]
    for each [xi] in order. *)
Definition domain_push (domain : list string) (xi : string) : list string :=
  if bool_decide (xi ∈ domain) then domain else domain ++ [xi].

Definition ordinal_domain (x : list string) : list string :=
  foldl domain_push [] x.

(** [index.get(x) - 1]: the position of [x] in the domain. *)
Fixpoint index_get (x : string) (domain : list string) : option nat :=
  match domain with
  | [] => None
  | y :: rest =>
      if bool_decide (x = y) then Some O else S <$> index_get x rest
  end.

(** [steps(start, step)]: [d3.range(n).map(i => start + step * i)]. *)
Definition steps (n : nat) (start step : Q) : list Q :=
  (fun i : nat => start + step * inject_Z (Z.of_nat i)) <$> seq 0 n.

(** [scale.domain(x).rangeRoundBands([x0, x1], padding)]: with two
    arguments [outerPadding = padding]. *)
Definition rangeRoundBands (x : list string) (interval : Q * Q) (padding : Q)
  : ordinal :=
  let domain := ordinal_domain x in
  let n := inject_Z (Z.of_nat (length domain)) in
  let outerPadding := padding in
  let reverse := Qlt_bool interval.2 interval.1 in
  let start := if reverse then interval.2 else interval.1 in
  let stop := if reverse then interval.1 else interval.2 in
  let step := Math_floor ((stop - start) / (n - padding + 2 * outerPadding)) in
  let range :=
    steps (length domain)
          (start + Math_round ((stop - start - (n - padding) * step) / 2))
          step in
  {| o_domain := domain;
     o_range := if reverse then rev range else range;
     o_rangeBand := Math_round (step * (1 - padding)) |}.

(** [scale(x)] for a band scale:
    [range[(index.get(x) - 1) % range.length]], [undefined] for a value
    outside the domain. *)
Definition scale_ordinal (s : ordinal) (x : string) : option Q :=
  i ← index_get x (o_domain s);
  o_range s !! (i mod length (o_range s))%nat.

Definition rangeBand (s : ordinal) : Q := o_rangeBand s.

End d3.

(** ** [BarChart.update] *)

Record IViewport := mkViewport {
  width : Q;
  height : Q
}.

(** Modelled from the spec: the declaration of [VisualUpdateOptions] (the
    Power BI typings) is not among the sources.  Following section 6 of the
    specification the host supplies the viewport and its data, an ordered
    sequence of category and value pairs. *)
Record VisualUpdateOptions := mkOptions {
  viewport : IViewport;
  dataViews : list (string * Q)
}.

(** The string ['translate(' + x + ', ' + y + ')']. *)
Record Translate := mkTranslate {
  tx : Q;
  ty : Q
}.

(** The attributes [bars.attr] gives one [rect]. *)
Record RectAttrs := mkRect {
  attr_width : Q;
  attr_height : option Q;
  attr_y : option Q;
  attr_x : option Q;
  attr_transform : Translate
}.

(** What one call of [update] hands to the drawing surface. *)
Record Rendering := mkRendering {
  svg_size : IViewport;
  axis_font_size : option Q;
  xAxis_transform : Translate;
  yAxis_transform : Translate;
  viewModel : BarChartViewModel;
  bars : list RectAttrs
}.

(** The literal [testData] of lines 85-131. *)
Definition testData : list BarChartDataPoint :=
  [ mkDataPoint 100 "Total" 0 0 "";
    mkDataPoint 60 "effect1" 0 0 "";
    mkDataPoint (-20) "effect2" 0 0 "";
    mkDataPoint (-10) "d" 0 0 "";
    mkDataPoint 30 "e" 0 0 "";
    mkDataPoint 160 "Total G" 0 0 "" ].

(** Lines 133-137. *)
Definition initViewModel (testData : list BarChartDataPoint) : BarChartViewModel :=
  {| dataPoints := testData;
     dataMax := d3.max (value <$> testData);
     dataMin := 0 |}.

(** Lines 147-149: [height -= (margins.bottom + margins.top)] and
    [width -= margins.left]. *)
Definition plotHeight (margins : Margins) (viewportHeight : Q) : Q :=
  viewportHeight - (bottom margins + top margins).

Definition plotWidth (margins : Margins) (viewportWidth : Q) : Q :=
  viewportWidth - left margins.

(** Lines 158-163: the two scales, for the plot size [height] x [width]. *)
Definition yScale (viewModel : BarChartViewModel) (height : Q) : Q -> option Q :=
  d3.scale_linear (dataMin viewModel, dataMax viewModel) (height, 0).

Definition xScale (viewModel : BarChartViewModel) (width : Q) : d3.ordinal :=
  d3.rangeRoundBands (category <$> dataPoints viewModel) (0, width)
                     (xScalePadding Config).

(** Lines 202-208: the attributes of the [rect] bound to data point [d]. *)
Definition barAttrs (xScale : d3.ordinal) (yScale : Q -> option Q)
    (margins : Margins) (height : Q) (d : BarChartDataPoint) : RectAttrs :=
  {| attr_width := d3.rangeBand xScale;
     attr_height := (fun y => height - y) <$> yScale (Qabs (start d - end_ d));
     attr_y := yScale (Qmax (start d) (end_ d));
     attr_x := d3.scale_ordinal xScale (category d);
     attr_transform := mkTranslate (left margins) (top margins) |}.

(** The body of [update] from line 133 on, as a function of the local
    array [testData] and of [options].  The array of the view model is
    [testData] itself; the scales are built before the loop runs, from the
    fields the loop leaves alone. *)
Definition render (testData : list BarChartDataPoint) (options : VisualUpdateOptions)
  : Rendering :=
  let viewModel := initViewModel testData in
  let width := width (viewport options) in
  let height := height (viewport options) in
  let svg := mkViewport width height in
  let margins := margins Config in
  let height := plotHeight margins height in
  let width := plotWidth margins width in
  let font := (fun m => m * xAxisFontMultiplier Config) <$> d3.min [height; width] in
  let yScale := yScale viewModel height in
  let xScale := xScale viewModel width in
  let dps := precalculate (dataPoints viewModel) in
  {| svg_size := svg;
     axis_font_size := font;
     xAxis_transform := mkTranslate (left margins) (height + top margins);
     yAxis_transform := mkTranslate 51 (top margins);
     viewModel := mkViewModel dps (dataMax viewModel) (dataMin viewModel);
     bars := barAttrs xScale yScale margins height <$> dps |}.

(** [public update(options)]. *)
Definition update (options : VisualUpdateOptions) : Rendering :=
  render testData options.

(** ** Vocabulary of the statements *)

(** The running total before index [i]: [0] plus the values of the points
    strictly before [i], added in sequence order. *)
Definition running_total (dps : list BarChartDataPoint) (i : nat) : Q :=
  foldl Qplus 0 (value <$> take i dps).

(** The point the loop leaves at index [i] of an array of length [len],
    when the running total before it is [c] and the slot held [d]. *)
Definition enriched (len i : nat) (c : Q) (d : BarChartDataPoint)
  : BarChartDataPoint :=
  let cls := if Qle_bool 0 (value d) then "positive" else "negative" in
  if Nat.eqb i (len - 1)
  then mkDataPoint (value d) (category d) 0 (value d) cls
  else mkDataPoint (value d) (category d) c (c + value d) cls.

(** Equality of two possibly undefined numbers, up to the representation
    of the rational. *)
Definition opt_Qeq (a b : option Q) : Prop :=
  match a, b with
  | Some x, Some y => x == y
  | None, None => True
  | _, _ => False
  end.

(** Start and step of the bands [rangeRoundBands] lays out for [n]
    categories on [[0, width]]. *)
Definition band_step (n : nat) (width padding : Q) : Q :=
  d3.Math_floor ((width - 0) / (inject_Z (Z.of_nat n) - padding + 2 * padding)).

Definition band_offset (n : nat) (width padding : Q) : Q :=
  0 + d3.Math_round
        ((width - 0 - (inject_Z (Z.of_nat n) - padding) * band_step n width padding) / 2).

(** ** The elements of the visual: constructor, data join, destroy

    The visual owns an [svg] with three groups.  The bar container holds
    the [rect]s; [update] binds the data points to them with d3's data
    join (lines 198-212). *)

(** A [rect] of the bar container: its classes, the datum the join bound
    to it ([__data__]) and the attributes [bars.attr] set, if any. *)
Record RectElement := mkRectElement {
  node_classes : list string;
  node_data : BarChartDataPoint;
  node_attrs : option RectAttrs
}.

(** The scale an axis is drawn with: a linear scale is its domain and
    range, an ordinal scale its bands. *)
Inductive AxisScale :=
  | LinearScale (domain : Q * option Q) (range : Q * Q)
  | OrdinalScale (s : d3.ordinal).

(** A [g] holding an axis: its classes, the [font-size] style and the
    [transform] attribute once set, and the axis last drawn into it by
    [.call(axis)], as scale and orientation. *)
Record AxisGroup := mkAxisGroup {
  g_classes : list string;
  g_font_size : option (option Q);
  g_transform : option Translate;
  g_axis : option (AxisScale * string)
}.

(** The selections of d3 version 3 on the children of one parent; a
    selection is the list of the positions of its elements. *)
Module d3_selection.

(** [selection.classed(name, true)] on one element. *)
Definition add_class (name : string) (classes : list string) : list string :=
  if bool_decide (name ∈ classes) then classes else classes ++ [name].

(** [parent.selectAll('.' + name)], from position [i] on. *)
Fixpoint selectAll_from (i : nat) (name : string) (children : list RectElement)
  : list nat :=
  match children with
  | [] => []
  | e :: rest =>
      if bool_decide (name ∈ node_classes e)
      then i :: selectAll_from (S i) name rest
      else selectAll_from (S i) name rest
  end.

Definition selectAll (name : string) (children : list RectElement) : list nat :=
  selectAll_from 0 name children.

(** The three selections of a data join. *)
Record Join := mkJoin {
  j_update : list nat;
  j_enter : list BarChartDataPoint;
  j_exit : list nat
}.

Definition set_data (d : BarChartDataPoint) (e : RectElement) : RectElement :=
  mkRectElement (node_classes e) d (node_attrs e).

(** [selection.data(values)] without a key function joins by index: the
    first [min(n, m)] elements of the group are bound to the first values,
    the values left over enter, the elements left over exit. *)
Definition data (group : list nat) (values : list BarChartDataPoint)
    (children : list RectElement) : list RectElement * Join :=
  (foldl (fun ch '(i, d) => alter (set_data d) i ch) children (zip group values),
   {| j_update := take (length values) group;
      j_enter := drop (length group) values;
      j_exit := drop (length values) group |}).

(** [enter().append('rect').classed(name, true)]: one new last child for
    each entering value, bound to it; the new elements join the update
    selection. *)
Definition enter_append (name : string) (j : Join) (children : list RectElement)
  : list RectElement * list nat :=
  (children
     ++ ((fun d => mkRectElement (add_class name []) d None) <$> j_enter j),
   j_update j ++ seq (length children) (length (j_enter j))).

(** [selection.attr(...)] with functions of the bound datum. *)
Definition set_attrs (f : BarChartDataPoint -> RectAttrs) (e : RectElement)
  : RectElement :=
  mkRectElement (node_classes e) (node_data e) (Some (f (node_data e))).

Definition attr (f : BarChartDataPoint -> RectAttrs) (selection : list nat)
    (children : list RectElement) : list RectElement :=
  foldl (fun ch i => alter (set_attrs f) i ch) children selection.

(** [exit().remove()]: the children at the exiting positions are dropped;
    [i] is the position of the head of [children]. *)
Fixpoint remove_from (i : nat) (exiting : list nat) (children : list RectElement)
  : list RectElement :=
  match children with
  | [] => []
  | e :: rest =>
      if bool_decide (i ∈ exiting)
      then remove_from (S i) exiting rest
      else e :: remove_from (S i) exiting rest
  end.

Definition remove (exiting : list nat) (children : list RectElement)
  : list RectElement :=
  remove_from 0 exiting children.

End d3_selection.

Module BarChart.

Section Host.
(** The types of the element the host page hands over and of the host
    services; the visual stores the host and never looks into it. *)
Context {HTMLElement IVisualHost : Type}.

Record VisualConstructorOptions := mkConstructorOptions {
  element : HTMLElement;
  host : IVisualHost
}.

(** The fields of the class, with the elements they refer to: the [svg]
    appended to [options.element], its classes and its size attributes,
    and the children of the three groups. *)
Record t := mkBarChart {
  this_host : IVisualHost;
  svg_classes : list string;
  svg_attrs : option IViewport;
  barContainer_classes : list string;
  barContainer : list RectElement;
  xAxis : AxisGroup;
  yAxis : AxisGroup
}.

(** [constructor(options)], lines 60-74. *)
Definition constructor (options : VisualConstructorOptions) : t :=
  {| this_host := host options;
     svg_classes := d3_selection.add_class "barChart" [];
     svg_attrs := None;
     barContainer_classes := d3_selection.add_class "barContainer" [];
     barContainer := [];
     xAxis := mkAxisGroup (d3_selection.add_class "xAxis" []) None None None;
     yAxis := mkAxisGroup (d3_selection.add_class "yAxis" []) None None None |}.

(** The body of [update] on the elements, as a function of the local
    array [testData]; the numbers are those of [render]. *)
Definition render_on (this : t) (testData : list BarChartDataPoint)
    (options : VisualUpdateOptions) : t :=
  let viewModel := initViewModel testData in
  let width := width (viewport options) in
  let height := height (viewport options) in
  let svg := Some (mkViewport width height) in
  let margins := margins Config in
  let height := plotHeight margins height in
  let width := plotWidth margins width in
  let font := (fun m => m * xAxisFontMultiplier Config) <$> d3.min [height; width] in
  let yScale' := yScale viewModel height in
  let xScale' := xScale viewModel width in
  let xAxis' :=
    mkAxisGroup (g_classes (xAxis this)) (Some font)
      (Some (mkTranslate (left margins) (height + top margins)))
      (Some (OrdinalScale xScale', "bottom")) in
  let yAxis' :=
    mkAxisGroup (g_classes (yAxis this)) (Some font)
      (Some (mkTranslate 51 (top margins)))
      (Some (LinearScale (dataMin viewModel, dataMax viewModel) (height, 0),
             "left")) in
  let dps := precalculate (dataPoints viewModel) in
  let '(children, bars) :=
    d3_selection.data (d3_selection.selectAll "bar" (barContainer this)) dps
                      (barContainer this) in
  let '(children, merged) := d3_selection.enter_append "bar" bars children in
  let children :=
    d3_selection.attr (barAttrs xScale' yScale' margins height) merged children in
  let children := d3_selection.remove (d3_selection.j_exit bars) children in
  {| this_host := this_host this;
     svg_classes := svg_classes this;
     svg_attrs := svg;
     barContainer_classes := barContainer_classes this;
     barContainer := children;
     xAxis := xAxis';
     yAxis := yAxis' |}.

(** [public update(options)]. *)
Definition update (this : t) (options : VisualUpdateOptions) : t :=
  render_on this testData options.

(** [public destroy()]: no cleanup. *)
Definition destroy (this : t) : t := this.

End Host.

Arguments VisualConstructorOptions : clear implicits.
Arguments t : clear implicits.

End BarChart.

(** The element [update] leaves for the data point [d]. *)
Definition bar_element (f : BarChartDataPoint -> RectAttrs)
    (d : BarChartDataPoint) : RectElement :=
  mkRectElement ["bar"] d (Some (f d)).

(** What [update] keeps true of the bar container: every child is a rect
    of class [bar] and nothing else. *)
Definition is_bar (e : RectElement) : Prop := node_classes e = ["bar"].

(** What stays of the visual from one update to the next: the host, the
    classes of the elements, and a bar container holding bars only. *)
Definition same_frame {IVisualHost : Type} (v1 v2 : BarChart.t IVisualHost)
  : Prop :=
  BarChart.this_host v1 = BarChart.this_host v2 /\
  BarChart.svg_classes v1 = BarChart.svg_classes v2 /\
  BarChart.barContainer_classes v1 = BarChart.barContainer_classes v2 /\
  g_classes (BarChart.xAxis v1) = g_classes (BarChart.xAxis v2) /\
  g_classes (BarChart.yAxis v1) = g_classes (BarChart.yAxis v2) /\
  Forall is_bar (BarChart.barContainer v1).

(** ** The model-building loop in binary64 (lines 181-194)

    The same loop with the numbers of the code: [float] is IEEE binary64,
    [PrimFloat.add] the rounding addition of [+=], [PrimFloat.leb 0 v] the
    comparison [v >= 0] (false on [NaN]). *)
Module Double.

Record BarChartDataPoint := mkDataPoint {
  value : float;
  category : string;
  start : float;
  end_ : float;
  class : string
}.

Definition set_start (v : float) (d : BarChartDataPoint) : BarChartDataPoint :=
  mkDataPoint (value d) (category d) v (end_ d) (class d).

Definition set_end (v : float) (d : BarChartDataPoint) : BarChartDataPoint :=
  mkDataPoint (value d) (category d) (start d) v (class d).

Definition set_class (s : string) (d : BarChartDataPoint) : BarChartDataPoint :=
  mkDataPoint (value d) (category d) (start d) (end_ d) s.

Definition loop_body (i : nat) (cumulative : float)
    (dps : list BarChartDataPoint) : float * list BarChartDataPoint :=
  match dps !! i with
  | None => (cumulative, dps)
  | Some d =>
      let d := set_start cumulative d in
      let cumulative := PrimFloat.add cumulative (value d) in
      let d := set_end cumulative d in
      let d := set_class (if PrimFloat.leb 0 (value d)
                          then "positive" else "negative") d in
      let d := if Nat.eqb i (length dps - 1)
               then set_end (value d) (set_start 0%float d)
               else d in
      (cumulative, <[i:=d]> dps)
  end.

Fixpoint loop (n i : nat) (cumulative : float) (dps : list BarChartDataPoint)
  : list BarChartDataPoint :=
  match n with
  | O => dps
  | S n' =>
      let '(cumulative', dps') := loop_body i cumulative dps in
      loop n' (S i) cumulative' dps'
  end.

Definition precalculate (dps : list BarChartDataPoint)
  : list BarChartDataPoint :=
  loop (length dps) 0 0%float dps.

(** The running total before index [i], rounded at every addition. *)
Definition running_total (dps : list BarChartDataPoint) (i : nat) : float :=
  foldl PrimFloat.add 0%float (value <$> take i dps).

(** The point the loop leaves at index [i] of an array of length [len]. *)
Definition enriched (len i : nat) (c : float) (d : BarChartDataPoint)
  : BarChartDataPoint :=
  let cls := if PrimFloat.leb 0 (value d) then "positive" else "negative" in
  if Nat.eqb i (len - 1)
  then mkDataPoint (value d) (category d) 0%float (value d) cls
  else mkDataPoint (value d) (category d) c (PrimFloat.add c (value d)) cls.

End Double.

(** * Properties *)

(** ** The scenarios of the specification, by evaluation *)

(** Scenario A: the data set of [update]. *)
Example scenario_A :
  ((fun d => (category d, start d, end_ d, class d)) <$> precalculate testData)
  = [ ("Total", 0, 100, "positive"); ("effect1", 100, 160, "positive");
      ("effect2", 160, 140, "negative"); ("d", 140, 130, "negative");
      ("e", 130, 160, "positive"); ("Total G", 0, 160, "positive") ] /\
  dataMax (initViewModel testData) = Some 160 /\
  dataMin (initViewModel testData) = 0.
Proof. repeat split. Qed.

(** Scenario B: a single point is the final point. *)
Example scenario_B :
  precalculate [mkDataPoint 50 "X" 0 0 ""]
  = [mkDataPoint 50 "X" 0 50 "positive"] /\
  dataMax (initViewModel [mkDataPoint 50 "X" 0 0 ""]) = Some 50.
Proof. split; reflexivity. Qed.

(** Scenario C: no point, no bar. *)
Example scenario_C (o : VisualUpdateOptions) :
  bars (render [] o) = [] /\ dataPoints (viewModel (render [] o)) = [].
Proof. split; reflexivity. Qed.

(** ** The loop, slot by slot *)

Lemma loop_body_spec (i : nat) (c : Q) (dps : list BarChartDataPoint)
    (d : BarChartDataPoint) :
  dps !! i = Some d ->
  loop_body i c dps = (c + value d, <[i:=enriched (length dps) i c d]> dps).
Proof.
  intros Hd. unfold loop_body, enriched. rewrite Hd. cbn.
  by destruct (Nat.eqb i (length dps - 1)).
Qed.

Lemma loop_length (n : nat) :
  forall (i : nat) (c : Q) (dps : list BarChartDataPoint),
    length (loop n i c dps) = length dps.
Proof.
  induction n as [|n IH]; intros i c dps; [done|].
  cbn [loop]. destruct (dps !! i) as [d|] eqn:Hd.
  - rewrite (loop_body_spec _ _ _ _ Hd), IH. apply length_insert.
  - unfold loop_body. rewrite Hd. apply IH.
Qed.

(** With [n] iterations left from index [i], the slots below [i] are left
    as they are and slot [j >= i] is enriched with the total accumulated
    from [c] over the slots [i .. j-1]. *)
Lemma loop_lookup (n : nat) :
  forall (i : nat) (c : Q) (dps : list BarChartDataPoint) (j : nat),
    (i + n = length dps)%nat ->
    loop n i c dps !! j =
      if decide (j < i)%nat then dps !! j
      else enriched (length dps) j
             (foldl Qplus c (value <$> take (j - i) (drop i dps))) <$> dps !! j.
Proof.
  induction n as [|n IH]; intros i c dps j Hlen.
  - cbn [loop]. case_decide; [done|].
    rewrite (lookup_ge_None_2 dps j); [done | lia].
  - destruct (lookup_lt_is_Some_2 dps i) as [d Hd]; [lia|].
    cbn [loop]. rewrite (loop_body_spec _ _ _ _ Hd).
    rewrite IH by (rewrite length_insert; lia).
    rewrite length_insert.
    destruct (decide (j < i)%nat) as [Hlt|Hge].
    + rewrite decide_True by lia. apply list_lookup_insert_ne. lia.
    + destruct (decide (j = i)) as [->|Hne].
      * rewrite decide_True by lia.
        rewrite list_lookup_insert_eq by lia.
        rewrite Hd, Nat.sub_diag. done.
      * rewrite decide_False by lia.
        rewrite list_lookup_insert_ne by lia.
        rewrite drop_insert_lt by lia.
        rewrite (drop_S dps d i Hd).
        replace (j - i)%nat with (S (j - S i)) by lia.
        done.
Qed.

Lemma precalculate_lookup (dps : list BarChartDataPoint) (j : nat) :
  precalculate dps !! j =
    enriched (length dps) j (running_total dps j) <$> dps !! j.
Proof.
  unfold precalculate, running_total.
  rewrite loop_lookup by lia.
  rewrite decide_False by lia.
  by rewrite Nat.sub_0_r, drop_0.
Qed.

Lemma precalculate_length (dps : list BarChartDataPoint) :
  length (precalculate dps) = length dps.
Proof. apply loop_length. Qed.


Lemma enriched_value (len i : nat) (c : Q) (d : BarChartDataPoint) :
  value (enriched len i c d) = value d.
Proof. unfold enriched. by destruct (Nat.eqb i (len - 1)). Qed.

Lemma enriched_class (len i : nat) (c : Q) (d : BarChartDataPoint) :
  class (enriched len i c d) =
    if Qle_bool 0 (value d) then "positive" else "negative".
Proof. unfold enriched. by destruct (Nat.eqb i (len - 1)). Qed.

Lemma enriched_nonfinal (len i : nat) (c : Q) (d : BarChartDataPoint) :
  (i < len - 1)%nat ->
  start (enriched len i c d) = c /\ end_ (enriched len i c d) = c + value d.
Proof.
  intros Hi. unfold enriched.
  destruct (Nat.eqb_spec i (len - 1)); [lia | done].
Qed.

Lemma enriched_final (len : nat) (c : Q) (d : BarChartDataPoint) :
  start (enriched len (len - 1) c d) = 0 /\
  end_ (enriched len (len - 1) c d) = value d.
Proof. unfold enriched. by rewrite Nat.eqb_refl. Qed.


Lemma render_bars_lookup (td : list BarChartDataPoint)
    (o : VisualUpdateOptions) (i : nat) :
  bars (render td o) !! i =
    barAttrs (xScale (initViewModel td)
                (plotWidth (margins Config) (width (viewport o))))
             (yScale (initViewModel td)
                (plotHeight (margins Config) (height (viewport o))))
             (margins Config)
             (plotHeight (margins Config) (height (viewport o)))
      <$> precalculate td !! i.
Proof. unfold render. cbn. apply list_lookup_fmap. Qed.

(** ** Running totals (C1, C2, C10) and sign classes (C8) *)

(** C1.  For a non-empty sequence, every point but the last comes out of the
    loop with [end = start + value], where [start] is the running total
    (from 0) of the values of the points strictly before it; the loop keeps
    the point's value. *)
Theorem C1_nonfinal_points (dps : list BarChartDataPoint) (i : nat) :
  dps <> [] -> (i < length dps - 1)%nat ->
  exists d0 d,
    dps !! i = Some d0 /\ precalculate dps !! i = Some d /\
    value d = value d0 /\
    end_ d = start d + value d /\
    start d = running_total dps i.
Proof.
  intros _ Hi.
  destruct (lookup_lt_is_Some_2 dps i) as [d0 Hd0]; [lia|].
  exists d0, (enriched (length dps) i (running_total dps i) d0).
  rewrite precalculate_lookup, Hd0.
  destruct (enriched_nonfinal (length dps) i (running_total dps i) d0 Hi)
    as [Hs He].
  rewrite enriched_value, Hs, He. done.
Qed.

Lemma C1_nonfinal_points_witness :
  exists d0 d,
    testData !! 2%nat = Some d0 /\ precalculate testData !! 2%nat = Some d /\
    value d = value d0 /\
    end_ d = start d + value d /\
    start d = running_total testData 2.
Proof.
  apply (C1_nonfinal_points testData 2); [discriminate | vm_compute; lia].
Defined.

(** C2.  For a non-empty sequence the last point comes out of the loop with
    [start = 0] and [end] equal to its own value, whatever was accumulated
    before it; a sequence of one point is the case where the first point is
    the last. *)
Theorem C2_final_point (dps : list BarChartDataPoint) :
  dps <> [] ->
  (exists d0 d,
     last dps = Some d0 /\ last (precalculate dps) = Some d /\
     value d = value d0 /\ start d = 0 /\ end_ d = value d) /\
  (length dps = 1%nat ->
   exists d, precalculate dps = [d] /\ start d = 0 /\ end_ d = value d).
Proof.
  intros Hne.
  assert (Hlen : (0 < length dps)%nat) by (destruct dps; [done | cbn; lia]).
  destruct (lookup_lt_is_Some_2 dps (length dps - 1)) as [d0 Hd0]; [lia|].
  pose (d := enriched (length dps) (length dps - 1)
               (running_total dps (length dps - 1)) d0).
  assert (Hd : precalculate dps !! (length dps - 1)%nat = Some d)
    by (by rewrite precalculate_lookup, Hd0).
  destruct (enriched_final (length dps)
              (running_total dps (length dps - 1)) d0) as [Hs He].
  split.
  - exists d0, d. rewrite !last_lookup, precalculate_length.
    replace (Nat.pred (length dps)) with (length dps - 1)%nat by lia.
    repeat split; try done.
    + apply enriched_value.
    + subst d. by rewrite He, enriched_value.
  - intros H1. exists d.
    pose proof (precalculate_length dps) as Hl.
    rewrite H1 in Hd, Hl.
    destruct (precalculate dps) as [|x [|y l]]; try discriminate.
    cbn in Hd. injection Hd as ->.
    repeat split; try done.
    subst d. by rewrite He, enriched_value.
Qed.

Lemma C2_final_point_witness :
  (exists d0 d,
     last [mkDataPoint 50 "X" 0 0 ""] = Some d0 /\
     last (precalculate [mkDataPoint 50 "X" 0 0 ""]) = Some d /\
     value d = value d0 /\ start d = 0 /\ end_ d = value d) /\
  (exists d, precalculate [mkDataPoint 50 "X" 0 0 ""] = [d] /\
             start d = 0 /\ end_ d = value d).
Proof.
  destruct (C2_final_point [mkDataPoint 50 "X" 0 0 ""]) as [Hlast Hone];
    [discriminate|].
  split; [exact Hlast | exact (Hone eq_refl)].
Defined.

(** C8.  For every point of the input the loop leaves a point with the
    same value whose class is ["positive"] exactly when that value is
    [>= 0] (zero included) and ["negative"] exactly when it is not. *)
Theorem C8_sign_class (dps : list BarChartDataPoint) (i : nat)
    (d0 : BarChartDataPoint) :
  dps !! i = Some d0 ->
  exists d,
    precalculate dps !! i = Some d /\
    value d = value d0 /\
    (class d = "positive" <-> 0 <= value d0) /\
    (class d = "negative" <-> value d0 < 0).
Proof.
  intros Hd0.
  exists (enriched (length dps) i (running_total dps i) d0).
  rewrite precalculate_lookup, Hd0.
  split; [done|]. split; [apply enriched_value|].
  rewrite enriched_class.
  destruct (Qle_bool 0 (value d0)) eqn:Hb.
  - apply Qle_bool_iff in Hb. split; split; try done.
    intros Hlt. exfalso. lra.
  - assert (Hlt : value d0 < 0).
    { apply Qnot_le_lt. intros Hle. apply Qle_bool_iff in Hle. congruence. }
    split; split; try done. intros Hle. exfalso. lra.
Qed.

Lemma C8_sign_class_witness :
  let dps := [mkDataPoint 0 "zero" 0 0 ""; mkDataPoint (-3) "loss" 0 0 "";
              mkDataPoint 2 "gain" 0 0 ""] in
  (exists d,
     precalculate dps !! 0%nat = Some d /\ value d = 0 /\
     (class d = "positive" <-> 0 <= 0) /\
     (class d = "negative" <-> 0 < 0)) /\
  (exists d,
     precalculate dps !! 1%nat = Some d /\ value d = (-3) /\
     (class d = "positive" <-> 0 <= (-3)) /\
     (class d = "negative" <-> (-3) < 0)).
Proof.
  intros dps. split.
  - exact (C8_sign_class dps 0 (mkDataPoint 0 "zero" 0 0 "") eq_refl).
  - exact (C8_sign_class dps 1 (mkDataPoint (-3) "loss" 0 0 "") eq_refl).
Defined.

Lemma opt_Qeq_refl (a : option Q) : opt_Qeq a a.
Proof. destruct a; cbn; [reflexivity | done]. Qed.




(** *** The loop in binary64, slot by slot *)









(** ** The plot area (C6) and the fixed data set (C9) *)

(** C6.  The plot height is the viewport height minus the top and bottom
    margins, the plot width is the viewport width minus the left margin
    only: changing the right margin leaves it as it is.  [update] lays out
    its axes and bars on that area, 35 lower and 45 narrower than the
    viewport. *)
Theorem C6_plot_area (m : Margins) (vw vh : Q) :
  plotHeight m vh == vh - top m - bottom m /\
  plotWidth m vw = vw - left m /\
  (forall r : Q,
     plotWidth (mkMargins (top m) r (bottom m) (left m)) vw = plotWidth m vw) /\
  (forall (td : list BarChartDataPoint) (dv : list (string * Q)),
     let o := mkOptions (mkViewport vw vh) dv in
     let h := plotHeight (margins Config) vh in
     let w := plotWidth (margins Config) vw in
     h == vh - 35 /\ w == vw - 45 /\
     xAxis_transform (render td o) = mkTranslate 45 (h + 10) /\
     bars (render td o) =
       barAttrs (xScale (initViewModel td) w) (yScale (initViewModel td) h)
                (margins Config) h <$> precalculate td).
Proof.
  split; [unfold plotHeight; ring|].
  split; [reflexivity|].
  split; [reflexivity|].
  intros td dv o h w.
  split; [unfold h, plotHeight; cbn; ring|].
  split; [unfold w, plotWidth; cbn; ring|].
  split; reflexivity.
Qed.

(** C9.  [update] never reads the data of its options: two calls with the
    same viewport width and height return the same view model, bars and
    axis placement, whatever data the host supplied, because the data set
    is the literal [testData]. *)
Theorem C9_update_ignores_host_data (o1 o2 : VisualUpdateOptions) :
  width (viewport o1) = width (viewport o2) ->
  height (viewport o1) = height (viewport o2) ->
  update o1 = update o2 /\
  dataPoints (viewModel (update o1)) = precalculate testData.
Proof.
  intros Hw Hh. split; [|reflexivity].
  unfold update, render. by rewrite Hw, Hh.
Qed.

Lemma C9_update_ignores_host_data_witness :
  update (mkOptions (mkViewport 640 480) [("North", 12); ("South", -7)]) =
  update (mkOptions (mkViewport 640 480) []) /\
  dataPoints
    (viewModel
       (update (mkOptions (mkViewport 640 480) [("North", 12); ("South", -7)])))
  = precalculate testData.
Proof.
  apply (C9_update_ignores_host_data
           (mkOptions (mkViewport 640 480) [("North", 12); ("South", -7)])
           (mkOptions (mkViewport 640 480) []));
    reflexivity.
Defined.

(** ** [d3.max] and the domain of the value scale (C3) *)

Lemma Qlt_bool_true (a b : Q) : d3.Qlt_bool a b = true <-> a < b.
Proof.
  unfold d3.Qlt_bool. rewrite negb_true_iff. split.
  - intros Hb. apply Qnot_le_lt. intros Hle.
    apply Qle_bool_iff in Hle. congruence.
  - intros Hlt. destruct (Qle_bool b a) eqn:Hb; [|done].
    apply Qle_bool_iff in Hb. lra.
Qed.

Lemma Qlt_bool_false (a b : Q) : d3.Qlt_bool a b = false <-> b <= a.
Proof.
  unfold d3.Qlt_bool. rewrite negb_false_iff. apply Qle_bool_iff.
Qed.

Lemma max_from_upper (array : list Q) :
  forall a : Q,
    a <= d3.max_from a array /\
    (forall v, v ∈ array -> v <= d3.max_from a array).
Proof.
  induction array as [|b rest IH]; intros a; cbn.
  - split; [lra|]. intros v Hv. by apply elem_of_nil in Hv.
  - destruct (IH (if d3.Qlt_bool a b then b else a)) as [Hseed Hrest].
    destruct (d3.Qlt_bool a b) eqn:Hab.
    + apply Qlt_bool_true in Hab. split; [lra|].
      intros v [->|Hv]%elem_of_cons; [done | by apply Hrest].
    + apply Qlt_bool_false in Hab. split; [done|].
      intros v [->|Hv]%elem_of_cons; [lra | by apply Hrest].
Qed.

Lemma max_from_elem (array : list Q) :
  forall a : Q, d3.max_from a array ∈ a :: array.
Proof.
  induction array as [|b rest IH]; intros a; cbn.
  - apply list_elem_of_here.
  - specialize (IH (if d3.Qlt_bool a b then b else a)).
    apply elem_of_cons in IH as [Heq|Hin].
    + rewrite Heq. destruct (d3.Qlt_bool a b).
      * apply list_elem_of_further, list_elem_of_here.
      * apply list_elem_of_here.
    + by do 2 apply list_elem_of_further.
Qed.

Lemma max_nonempty (array : list Q) :
  array <> [] ->
  exists m, d3.max array = Some m /\ m ∈ array /\
            forall v, v ∈ array -> v <= m.
Proof.
  destruct array as [|b rest]; [done|]. intros _.
  exists (d3.max_from b rest). split; [done|]. split.
  - apply max_from_elem.
  - destruct (max_from_upper rest b) as [Hb Hrest].
    intros v [->|Hv]%elem_of_cons; [done | by apply Hrest].
Qed.

(** C3, as the code has it.  [dataMin] is 0.  For a non-empty sequence
    [dataMax] is the greatest raw value of the points: a value of the
    sequence that no other value exceeds.  For the empty sequence nothing
    fails, and [dataMax] is undefined rather than 0.  The loop and the
    layout leave both as they are. *)
Theorem C3_dataMax_is_max_value (dps : list BarChartDataPoint) :
  dataMin (initViewModel dps) = 0 /\
  (dps = [] -> dataMax (initViewModel dps) = None) /\
  (dps <> [] ->
   exists m, dataMax (initViewModel dps) = Some m /\
             m ∈ (value <$> dps) /\
             forall d, d ∈ dps -> value d <= m) /\
  (forall o : VisualUpdateOptions,
     dataMax (viewModel (render dps o)) = dataMax (initViewModel dps) /\
     dataMin (viewModel (render dps o)) = 0).
Proof.
  split; [done|]. split; [by intros ->|]. split; [|done].
  intros Hne.
  destruct (max_nonempty (value <$> dps)) as (m & Hm & Hin & Hub).
  { destruct dps; [done | discriminate]. }
  exists m. split; [done|]. split; [done|].
  intros d Hd. apply Hub. by apply list_elem_of_fmap_2.
Qed.

Lemma C3_dataMax_is_max_value_witness :
  exists m, dataMax (initViewModel testData) = Some m /\
            m ∈ (value <$> testData) /\
            forall d, d ∈ testData -> value d <= m.
Proof.
  destruct (C3_dataMax_is_max_value testData) as (_ & _ & Hmax & _).
  apply Hmax. discriminate.
Defined.

(** C3 as stated fails on the empty sequence: [d3.max] of no values is
    undefined, so [dataMax] is not 0. *)
Lemma C3_empty_dataMax_not_zero :
  dataMax (initViewModel []) = None /\
  dataMax (viewModel (render [] (mkOptions (mkViewport 300 200) []))) = None /\
  ~ opt_Qeq (dataMax (initViewModel [])) (Some 0).
Proof. repeat split. intros []. Qed.

(** ** The band scale (C7) *)

Lemma domain_push_spec (x : list string) :
  forall acc : list string,
    NoDup acc ->
    NoDup (foldl d3.domain_push acc x) /\
    forall c, c ∈ foldl d3.domain_push acc x <-> c ∈ acc \/ c ∈ x.
Proof.
  induction x as [|xi rest IH]; intros acc Hnd; cbn.
  - split; [done|]. intros c. rewrite elem_of_nil. tauto.
  - unfold d3.domain_push at 2 4. case_bool_decide as Hin.
    + destruct (IH acc Hnd) as [Hnd' Hel]. split; [done|].
      intros c. rewrite Hel, elem_of_cons. split; [tauto|].
      intros [Hc|[->|Hc]]; tauto.
    + destruct (IH (acc ++ [xi])) as [Hnd' Hel].
      { apply NoDup_app. split; [done|]. split; [|apply NoDup_singleton].
        intros y Hy ->%list_elem_of_singleton. done. }
      split; [done|]. intros c.
      rewrite Hel, elem_of_app, list_elem_of_singleton, elem_of_cons. tauto.
Qed.

Lemma ordinal_domain_NoDup (x : list string) : NoDup (d3.ordinal_domain x).
Proof. apply domain_push_spec, NoDup_nil_2. Qed.

Lemma ordinal_domain_elem (x : list string) (c : string) :
  c ∈ d3.ordinal_domain x <-> c ∈ x.
Proof.
  unfold d3.ordinal_domain.
  destruct (domain_push_spec x [] (NoDup_nil_2)) as [_ Hel].
  rewrite Hel, elem_of_nil. tauto.
Qed.

Lemma index_get_lookup (domain : list string) :
  NoDup domain ->
  forall (i : nat) (c : string),
    domain !! i = Some c -> d3.index_get c domain = Some i.
Proof.
  induction 1 as [|y rest Hy Hnd IH]; intros i c Hc; [done|].
  cbn. destruct i as [|i]; cbn in Hc.
  - injection Hc as ->. by rewrite bool_decide_eq_true_2.
  - rewrite bool_decide_eq_false_2.
    + by rewrite (IH i c Hc).
    + intros ->. apply Hy. by eapply list_elem_of_lookup_2.
Qed.

Lemma steps_lookup (n : nat) (start step : Q) (i : nat) :
  (i < n)%nat ->
  d3.steps n start step !! i = Some (start + step * inject_Z (Z.of_nat i)).
Proof.
  intros Hi. unfold d3.steps.
  by rewrite list_lookup_fmap, lookup_seq_lt.
Qed.

Lemma steps_length (n : nat) (start step : Q) :
  length (d3.steps n start step) = n.
Proof. unfold d3.steps. by rewrite length_fmap, length_seq. Qed.

(** On a non-negative width the band of the [i]-th distinct category starts
    at [band_offset + band_step * i]. *)
Lemma scale_ordinal_band (x : list string) (w padding : Q) (i : nat)
    (c : string) :
  0 <= w ->
  d3.ordinal_domain x !! i = Some c ->
  d3.scale_ordinal (d3.rangeRoundBands x (0, w) padding) c =
    Some (band_offset (length (d3.ordinal_domain x)) w padding
          + band_step (length (d3.ordinal_domain x)) w padding
            * inject_Z (Z.of_nat i)).
Proof.
  intros Hw Hc.
  pose proof (lookup_lt_Some _ _ _ Hc) as Hi.
  unfold d3.scale_ordinal, d3.rangeRoundBands. cbn [fst snd].
  assert (Hrev : d3.Qlt_bool w 0 = false) by (by apply Qlt_bool_false).
  rewrite Hrev. cbn [d3.o_domain d3.o_range].
  rewrite (index_get_lookup _ (ordinal_domain_NoDup x) i c Hc). cbn.
  rewrite steps_length, Nat.mod_small by done.
  by rewrite steps_lookup.
Qed.

Lemma inject_nat_nonneg (n : nat) : 0 <= inject_Z (Z.of_nat n).
Proof. change 0 with (inject_Z 0). rewrite <- Zle_Qle. lia. Qed.

Lemma Qdiv_nonneg (a b : Q) : 0 <= a -> 0 < b -> 0 <= a / b.
Proof. intros Ha Hb. apply Qle_shift_div_l; [done | lra]. Qed.


Lemma Math_floor_nonneg (x : Q) : 0 <= x -> 0 <= d3.Math_floor x.
Proof.
  intros Hx. unfold d3.Math_floor. change 0 with (inject_Z 0).
  rewrite <- Zle_Qle. change 0%Z with (Qfloor 0).
  by apply Qfloor_resp_le.
Qed.

Lemma Math_round_nonneg (x : Q) : 0 <= x -> 0 <= d3.Math_round x.
Proof.
  intros Hx. unfold d3.Math_round. apply (Math_floor_nonneg (x + (1 # 2))).
  lra.
Qed.

(** Rounding a number below [k + 1/2] gives at most the integer [k]. *)
Lemma Math_round_le (x : Q) (k : Z) :
  x < inject_Z k + (1 # 2) -> d3.Math_round x <= inject_Z k.
Proof.
  intros Hx. unfold d3.Math_round. rewrite <- Zle_Qle.
  destruct (Z_le_gt_dec (Qfloor (x + (1 # 2))) k) as [Hle|Hgt]; [done|].
  exfalso.
  assert (Hk : (k + 1 <= Qfloor (x + (1 # 2)))%Z) by lia.
  rewrite Zle_Qle, inject_Z_plus in Hk.
  pose proof (Qfloor_le (x + (1 # 2))) as Hfl.
  change (inject_Z 1) with 1 in Hk. lra.
Qed.

Section Bands.
(** [n] categories laid out on [[0, w]] with padding fraction [p]. *)
Variables (n : nat) (w p : Q).
Hypothesis Hw : 0 <= w.
Hypotheses (Hp0 : 0 < p) (Hp1 : p <= 1).

Let N : Q := inject_Z (Z.of_nat n).

Lemma band_denominator_pos : 0 < N - p + 2 * p.
Proof. pose proof (inject_nat_nonneg n). subst N. lra. Qed.

Lemma band_step_nonneg : 0 <= band_step n w p.
Proof.
  unfold band_step. apply Math_floor_nonneg, Qdiv_nonneg.
  - lra.
  - apply band_denominator_pos.
Qed.



(** The band is at most one step wide, and not negative. *)
Lemma band_width_bounds :
  0 <= d3.Math_round (band_step n w p * (1 - p)) <= band_step n w p.
Proof.
  pose proof band_step_nonneg as Hs.
  pose proof (Qmult_le_0_compat _ _ Hs (Qlt_le_weak _ _ Hp0)) as Hsp.
  split.
  - apply Math_round_nonneg, Qmult_le_0_compat; [done | lra].
  - unfold band_step at 2. apply Math_round_le.
    change (inject_Z (Qfloor ((w - 0) / (inject_Z (Z.of_nat n) - p + 2 * p))))
      with (band_step n w p).
    assert (Heq : band_step n w p * (1 - p)
                  == band_step n w p - band_step n w p * p) by ring.
    rewrite Heq. lra.
Qed.
End Bands.

Lemma Config_padding_bounds :
  0 < xScalePadding Config /\ xScalePadding Config <= 1.
Proof. cbn. lra. Qed.

Lemma inject_nat_lt (i j : nat) :
  (i < j)%nat -> inject_Z (Z.of_nat i) + 1 <= inject_Z (Z.of_nat j).
Proof.
  intros Hij. change 1 with (inject_Z 1).
  rewrite <- inject_Z_plus, <- Zle_Qle. lia.
Qed.




(** ** Bar geometry (C5) and small viewports (C4) *)

(** C5.  The [rect] of every data point gets: as width the band width of
    the category scale, as height the plot height minus the value scale at
    [|start - end|], as [y] the value scale at [max(start, end)], as [x] the
    category scale at its category, and the translation by
    [(margins.left, margins.top)].  There is one [rect] for each point. *)
Theorem C5_bar_geometry (td : list BarChartDataPoint)
    (o : VisualUpdateOptions) (i : nat) (d : BarChartDataPoint) :
  dataPoints (viewModel (render td o)) !! i = Some d ->
  let m := margins Config in
  let h := plotHeight m (height (viewport o)) in
  let w := plotWidth m (width (viewport o)) in
  let xs := xScale (initViewModel td) w in
  let ys := yScale (initViewModel td) h in
  (exists r,
     bars (render td o) !! i = Some r /\
     attr_width r = d3.rangeBand xs /\
     attr_height r = (fun y => h - y) <$> ys (Qabs (start d - end_ d)) /\
     attr_y r = ys (Qmax (start d) (end_ d)) /\
     attr_x r = d3.scale_ordinal xs (category d) /\
     attr_transform r = mkTranslate (left m) (top m)) /\
  length (bars (render td o)) = length td.
Proof.
  intros Hd m h w xs ys. change (precalculate td !! i = Some d) in Hd.
  split.
  - eexists. rewrite render_bars_lookup, Hd. by repeat split.
  - unfold render. cbn [bars]. rewrite length_fmap.
    apply precalculate_length.
Qed.

Lemma C5_bar_geometry_witness :
  let o := mkOptions (mkViewport 145 135) [] in
  let d := mkDataPoint (-10) "d" 140 (140 + -10) "negative" in
  let m := margins Config in
  let h := plotHeight m (height (viewport o)) in
  let w := plotWidth m (width (viewport o)) in
  let xs := xScale (initViewModel testData) w in
  let ys := yScale (initViewModel testData) h in
  (exists r,
     bars (render testData o) !! 3%nat = Some r /\
     attr_width r = d3.rangeBand xs /\
     attr_height r = (fun y => h - y) <$> ys (Qabs (start d - end_ d)) /\
     attr_y r = ys (Qmax (start d) (end_ d)) /\
     attr_x r = d3.scale_ordinal xs (category d) /\
     attr_transform r = mkTranslate (left m) (top m)) /\
  length (bars (render testData o)) = length testData.
Proof.
  apply (C5_bar_geometry testData (mkOptions (mkViewport 145 135) []) 3).
  reflexivity.
Defined.

Lemma rangeBand_nonneg (x : list string) (interval : Q * Q) :
  0 <= d3.rangeBand (d3.rangeRoundBands x interval (xScalePadding Config)).
Proof.
  destruct Config_padding_bounds as [Hp0 Hp1].
  pose proof (inject_nat_nonneg (length (d3.ordinal_domain x))) as Hn.
  unfold d3.rangeBand, d3.rangeRoundBands. cbn [d3.o_rangeBand].
  apply Math_round_nonneg, Qmult_le_0_compat; [|lra].
  apply Math_floor_nonneg, Qdiv_nonneg; [|lra].
  destruct (d3.Qlt_bool interval.2 interval.1) eqn:Hrev.
  - apply Qlt_bool_true in Hrev. lra.
  - apply Qlt_bool_false in Hrev. lra.
Qed.

(** On the domain [[0, m]] with [m > 0] and the range [[h, 0]], the height
    of the bar for the span [x] is [h * (x / m)]. *)
Lemma linear_bar_height (h m x : Q) :
  0 < m ->
  h - d3.interpolateNumber h 0 (d3.uninterpolateNumber 0 m x) == h * (x / m).
Proof.
  intros Hm. unfold d3.interpolateNumber, d3.uninterpolateNumber.
  destruct (Qeq_bool (m - 0) 0) eqn:Hz.
  - apply Qeq_bool_eq in Hz. lra.
  - field. lra.
Qed.

Lemma testData_spans_positive :
  Forall (fun d => 0 < Qabs (start d - end_ d)) (precalculate testData).
Proof. vm_compute. repeat constructor. Qed.

(** C4, as the code has it.  The plot area is the viewport less 35 in height
    and 45 in width, and is not clamped: a viewport lower than 35 has a
    negative plot height, one narrower than 45 a negative plot width.  The
    bars [update] emits never have a negative width, and on a negative plot
    height every one of them has a negative height. *)
Theorem C4_plot_area_not_clamped (o : VisualUpdateOptions) :
  let vw := width (viewport o) in
  let vh := height (viewport o) in
  let h := plotHeight (margins Config) vh in
  let w := plotWidth (margins Config) vw in
  h == vh - 35 /\ w == vw - 45 /\
  (vh < 35 -> h < 0) /\
  (vw < 45 -> w < 0) /\
  (forall r, r ∈ bars (update o) -> 0 <= attr_width r) /\
  (vh < 35 ->
   forall r, r ∈ bars (update o) ->
             exists hh, attr_height r = Some hh /\ hh < 0).
Proof.
  intros vw vh h w.
  assert (Hh : h == vh - 35) by (unfold h, plotHeight; cbn; ring).
  assert (Hw : w == vw - 45) by (unfold w, plotWidth; cbn; ring).
  split; [done|]. split; [done|].
  split; [intros Hlt; lra|]. split; [intros Hlt; lra|].
  split.
  - intros r (d & -> & _)%list_elem_of_fmap. apply rangeBand_nonneg.
  - intros Hlt r (d & -> & Hd)%list_elem_of_fmap.
    pose proof testData_spans_positive as Hpos.
    rewrite Forall_forall in Hpos. specialize (Hpos d Hd).
    exists (h - d3.interpolateNumber h 0
                 (d3.uninterpolateNumber 0 160 (Qabs (start d - end_ d)))).
    split; [reflexivity|].
    assert (H160 : 0 < 160) by lra.
    rewrite (linear_bar_height h 160 _ H160).
    generalize dependent (Qabs (start d - end_ d)). intros x Hx.
    assert (Ht : 0 < x / 160) by (apply Qlt_shift_div_l; lra).
    generalize dependent (x / 160). intros t Ht.
    assert (Hneg : 0 < (- h) * t) by (apply Qmult_lt_0_compat; lra).
    assert (Heq : (- h) * t == - (h * t)) by ring.
    rewrite Heq in Hneg. lra.
Qed.

Lemma C4_plot_area_not_clamped_witness :
  let o := mkOptions (mkViewport 30 20) [] in
  plotHeight (margins Config) 20 < 0 /\
  plotWidth (margins Config) 30 < 0 /\
  forall r, r ∈ bars (update o) ->
            exists hh, attr_height r = Some hh /\ hh < 0.
Proof.
  destruct (C4_plot_area_not_clamped (mkOptions (mkViewport 30 20) []))
    as (_ & _ & Hh & Hw & _ & Hbars).
  split; [apply Hh; cbn; lra|].
  split; [apply Hw; cbn; lra|].
  apply Hbars. cbn. lra.
Defined.

(** C4 as stated fails on a viewport of 10 by 10: the plot is -25 high and
    -35 wide, and the first bar is emitted with the height -125/8. *)
Lemma C4_small_viewport_negative_plot :
  let o := mkOptions (mkViewport 10 10) [] in
  plotHeight (margins Config) (height (viewport o)) == -25 /\
  plotWidth (margins Config) (width (viewport o)) == -35 /\
  ~ 0 <= plotHeight (margins Config) (height (viewport o)) /\
  exists r hh,
    bars (update o) !! 0%nat = Some r /\ attr_height r = Some hh /\
    hh == - (125 # 8) /\ hh < 0.
Proof.
  cbv zeta.
  split; [reflexivity|]. split; [reflexivity|].
  split; [intros Hle; vm_compute in Hle; by apply Hle|].
  eexists. eexists. split; [reflexivity|]. split; [reflexivity|].
  split; reflexivity.
Qed.

(** * Further properties of the code *)

(** ** What the loop keeps and what it ignores *)

Lemma enriched_category (len i : nat) (c : Q) (d : BarChartDataPoint) :
  category (enriched len i c d) = category d.
Proof. unfold enriched. by destruct (Nat.eqb i (len - 1)). Qed.

(** The enriched point is a function of the value and category alone. *)
Lemma enriched_ext (len i : nat) (c : Q) (d1 d2 : BarChartDataPoint) :
  value d1 = value d2 -> category d1 = category d2 ->
  enriched len i c d1 = enriched len i c d2.
Proof. intros Hv Hc. unfold enriched. by rewrite Hv, Hc. Qed.

Lemma precalculate_fmap_value (dps : list BarChartDataPoint) :
  value <$> precalculate dps = value <$> dps.
Proof.
  apply list_eq. intros i.
  rewrite !list_lookup_fmap, precalculate_lookup.
  destruct (dps !! i) as [d|]; [|done]. cbn. by rewrite enriched_value.
Qed.

Lemma precalculate_fmap_category (dps : list BarChartDataPoint) :
  category <$> precalculate dps = category <$> dps.
Proof.
  apply list_eq. intros i.
  rewrite !list_lookup_fmap, precalculate_lookup.
  destruct (dps !! i) as [d|]; [|done]. cbn. by rewrite enriched_category.
Qed.

Lemma running_total_values (dps1 dps2 : list BarChartDataPoint) (i : nat) :
  value <$> dps1 = value <$> dps2 ->
  running_total dps1 i = running_total dps2 i.
Proof. intros Hv. unfold running_total. by rewrite !fmap_take, Hv. Qed.

Lemma precalculate_ext (dps1 dps2 : list BarChartDataPoint) :
  value <$> dps1 = value <$> dps2 ->
  category <$> dps1 = category <$> dps2 ->
  precalculate dps1 = precalculate dps2.
Proof.
  intros Hv Hc. apply list_eq. intros i.
  rewrite !precalculate_lookup.
  assert (Hlen : length dps1 = length dps2)
    by (by rewrite <- (length_fmap value dps1), Hv, length_fmap).
  rewrite Hlen, (running_total_values _ _ i Hv).
  assert (Hvi : value <$> dps1 !! i = value <$> dps2 !! i)
    by (by rewrite <- !list_lookup_fmap, Hv).
  assert (Hci : category <$> dps1 !! i = category <$> dps2 !! i)
    by (by rewrite <- !list_lookup_fmap, Hc).
  destruct (dps1 !! i) as [d1|], (dps2 !! i) as [d2|]; try done.
  cbn in *. f_equal. apply enriched_ext; congruence.
Qed.

Lemma running_total_S (dps : list BarChartDataPoint) (i : nat)
    (d : BarChartDataPoint) :
  dps !! i = Some d ->
  running_total dps (S i) = running_total dps i + value d.
Proof.
  intros Hd. unfold running_total.
  by rewrite (take_S_r dps i d Hd), fmap_app, foldl_app.
Qed.

(** X1.  The loop writes [start], [end] and [class] only: the array keeps
    its length, and every slot keeps its value and its category. *)
Theorem X1_loop_keeps_value_and_category (dps : list BarChartDataPoint) :
  length (precalculate dps) = length dps /\
  value <$> precalculate dps = value <$> dps /\
  category <$> precalculate dps = category <$> dps.
Proof.
  split; [apply precalculate_length|].
  split; [apply precalculate_fmap_value | apply precalculate_fmap_category].
Qed.

(** X2.  What the slots hold in [start], [end] and [class] when the loop
    begins does not matter: two arrays with the same values and categories
    come out equal.  Running the loop on its own result changes nothing. *)
Theorem X2_loop_ignores_old_fields (dps1 dps2 : list BarChartDataPoint) :
  value <$> dps1 = value <$> dps2 ->
  category <$> dps1 = category <$> dps2 ->
  precalculate dps1 = precalculate dps2 /\
  precalculate (precalculate dps1) = precalculate dps1.
Proof.
  intros Hv Hc. split; [by apply precalculate_ext|].
  apply precalculate_ext.
  - apply precalculate_fmap_value.
  - apply precalculate_fmap_category.
Qed.

Lemma X2_loop_ignores_old_fields_witness :
  precalculate [mkDataPoint 7 "a" 99 (-4) "stale"; mkDataPoint (-2) "b" 1 1 ""]
  = precalculate [mkDataPoint 7 "a" 0 0 ""; mkDataPoint (-2) "b" 0 0 ""] /\
  precalculate
    (precalculate
       [mkDataPoint 7 "a" 99 (-4) "stale"; mkDataPoint (-2) "b" 1 1 ""])
  = precalculate [mkDataPoint 7 "a" 99 (-4) "stale"; mkDataPoint (-2) "b" 1 1 ""].
Proof.
  apply (X2_loop_ignores_old_fields
           [mkDataPoint 7 "a" 99 (-4) "stale"; mkDataPoint (-2) "b" 1 1 ""]
           [mkDataPoint 7 "a" 0 0 ""; mkDataPoint (-2) "b" 0 0 ""]);
    reflexivity.
Defined.

(** X3.  The bars chain: in every non-empty sequence the first point
    starts at 0, and every point after it, the final one excepted, starts
    where the point before it ended. *)
Theorem X3_bars_chain (dps : list BarChartDataPoint) :
  (dps <> [] ->
   exists d0, precalculate dps !! 0%nat = Some d0 /\ start d0 = 0) /\
  (forall i, (S i < length dps - 1)%nat ->
     exists d d',
       precalculate dps !! i = Some d /\
       precalculate dps !! S i = Some d' /\
       start d' = end_ d).
Proof.
  split.
  - intros Hne. destruct dps as [|e0 rest]; [done|].
    eexists. rewrite precalculate_lookup. split; [reflexivity|].
    unfold enriched. by destruct (Nat.eqb 0 (length (e0 :: rest) - 1)).
  - intros i Hi.
    destruct (lookup_lt_is_Some_2 dps i) as [e He]; [lia|].
    destruct (lookup_lt_is_Some_2 dps (S i)) as [e' He']; [lia|].
    eexists. eexists. rewrite !precalculate_lookup, He, He'.
    split; [reflexivity|]. split; [reflexivity|].
    destruct (enriched_nonfinal (length dps) i (running_total dps i) e)
      as [_ Hend]; [lia|].
    destruct (enriched_nonfinal (length dps) (S i)
                (running_total dps (S i)) e') as [Hstart _]; [lia|].
    by rewrite Hend, Hstart, (running_total_S dps i e He).
Qed.

Lemma X3_bars_chain_witness :
  (exists d0, precalculate [mkDataPoint 50 "X" 0 0 ""] !! 0%nat = Some d0 /\
              start d0 = 0) /\
  (exists d0, precalculate testData !! 0%nat = Some d0 /\ start d0 = 0) /\
  (exists d d',
     precalculate testData !! 1%nat = Some d /\
     precalculate testData !! 2%nat = Some d' /\
     start d' = end_ d).
Proof.
  split; [|split].
  - destruct (X3_bars_chain [mkDataPoint 50 "X" 0 0 ""]) as [Hfirst _].
    apply Hfirst. discriminate.
  - destruct (X3_bars_chain testData) as [Hfirst _].
    apply Hfirst. discriminate.
  - destruct (X3_bars_chain testData) as [_ Hchain].
    apply (Hchain 1%nat). vm_compute. lia.
Defined.

(** ** The axis font size (lines 151-156) *)

(** X4.  Both axes get the font size [min(plotHeight, plotWidth) * 0.04]:
    it is always a number, 4% of the smaller plot dimension, and it is
    negative as soon as one plot dimension is. *)
Theorem X4_axis_font_size (td : list BarChartDataPoint)
    (o : VisualUpdateOptions) :
  let h := plotHeight (margins Config) (height (viewport o)) in
  let w := plotWidth (margins Config) (width (viewport o)) in
  exists f,
    axis_font_size (render td o) = Some f /\
    f == Qmin h w * (4 # 100) /\
    (h < 0 \/ w < 0 -> f < 0).
Proof.
  intros h w.
  exists ((if d3.Qlt_bool w h then w else h) * xAxisFontMultiplier Config).
  split; [reflexivity|].
  assert (Hmin : (if d3.Qlt_bool w h then w else h) == Qmin h w).
  { destruct (d3.Qlt_bool w h) eqn:Hb.
    - apply Qlt_bool_true in Hb. symmetry. apply Q.min_r. lra.
    - apply Qlt_bool_false in Hb. symmetry. by apply Q.min_l. }
  split.
  - rewrite Hmin. reflexivity.
  - intros Hneg. rewrite Hmin.
    assert (Hm : Qmin h w < 0).
    { destruct Hneg as [Hh|Hw].
      - pose proof (Q.le_min_l h w). lra.
      - pose proof (Q.le_min_r h w). lra. }
    change (xAxisFontMultiplier Config) with (4 # 100). lra.
Qed.

Lemma X4_axis_font_size_witness :
  exists f,
    axis_font_size (render testData (mkOptions (mkViewport 145 20) []))
    = Some f /\
    f == Qmin (plotHeight (margins Config) 20) (plotWidth (margins Config) 145)
         * (4 # 100) /\
    f < 0.
Proof.
  destruct (X4_axis_font_size testData (mkOptions (mkViewport 145 20) []))
    as (f & Hf & Heq & Hneg).
  exists f. split; [exact Hf|]. split; [exact Heq|].
  apply Hneg. left. vm_compute. reflexivity.
Defined.

(** ** The value scale and the vertical extent of a bar *)

Lemma yScale_Some (td : list BarChartDataPoint) (h m x : Q) :
  dataMax (initViewModel td) = Some m ->
  yScale (initViewModel td) h x
  = Some (d3.interpolateNumber h 0 (d3.uninterpolateNumber 0 m x)).
Proof. intros Hm. unfold yScale, d3.scale_linear. cbn [fst snd]. by rewrite Hm. Qed.

Lemma interpolate_range (h t : Q) : d3.interpolateNumber h 0 t == h - h * t.
Proof. unfold d3.interpolateNumber. ring. Qed.

(** On a domain that starts at 0 the normalised position is linear. *)
Lemma uninterpolate_slope (m x : Q) :
  d3.uninterpolateNumber 0 m x == x * d3.uninterpolateNumber 0 m 1.
Proof.
  unfold d3.uninterpolateNumber.
  destruct (Qeq_bool (m - 0) 0) eqn:Hz; [ring|].
  apply Qeq_bool_neq in Hz. field. lra.
Qed.

Lemma uninterpolate_pos (m x : Q) :
  0 < m -> d3.uninterpolateNumber 0 m x == x / m.
Proof.
  intros Hm. unfold d3.uninterpolateNumber.
  destruct (Qeq_bool (m - 0) 0) eqn:Hz.
  - apply Qeq_bool_eq in Hz. lra.
  - field. lra.
Qed.

Lemma Qmax_minus_abs (s e : Q) : Qmax s e - Qabs (s - e) == Qmin s e.
Proof.
  destruct (Qlt_le_dec s e) as [Hlt|Hle].
  - rewrite (Q.max_r s e), (Q.min_l s e) by lra.
    rewrite (Qabs_neg (s - e)) by lra. ring.
  - rewrite (Q.max_l s e), (Q.min_r s e) by lra.
    rewrite (Qabs_pos (s - e)) by lra. ring.
Qed.

Lemma nonempty_dataMax (td : list BarChartDataPoint) :
  td <> [] -> exists m, dataMax (initViewModel td) = Some m.
Proof. destruct td; [done|]. intros _. by eexists. Qed.




(** On the domain [[0, m]], [m > 0], and the range [[h, 0]] the scale is
    [(m - x) * (h / m)]. *)
Lemma scale_pos_form (h m x : Q) :
  0 < m ->
  d3.interpolateNumber h 0 (d3.uninterpolateNumber 0 m x)
  == (m - x) * (h * (1 / m)).
Proof.
  intros Hm. rewrite interpolate_range, (uninterpolate_pos m x Hm).
  field. lra.
Qed.






(** The top and the bottom of a bar, for [dataMax = m > 0]: with
    [K = h / m], the top is [(m - max(start, end)) * K] and top plus height
    is [(m - min(start, end)) * K]. *)
Lemma bar_extent (h m s e : Q) :
  0 < m ->
  let K := h * (1 / m) in
  let y := d3.interpolateNumber h 0 (d3.uninterpolateNumber 0 m (Qmax s e)) in
  let hh := h - d3.interpolateNumber h 0
                  (d3.uninterpolateNumber 0 m (Qabs (s - e))) in
  y == (m - Qmax s e) * K /\ hh == Qabs (s - e) * K /\
  y + hh == (m - Qmin s e) * K /\ h == m * K.
Proof.
  intros Hm K y hh. unfold y, hh, K.
  rewrite !(scale_pos_form h m _ Hm).
  split; [reflexivity|].
  split; [field; lra|].
  split; [|field; lra].
  rewrite <- (Qmax_minus_abs s e). field. lra.
Qed.



Lemma testData_totals_in_domain :
  Forall (fun d => 0 <= Qmin (start d) (end_ d) /\
                   Qmax (start d) (end_ d) <= 160)
         (precalculate testData).
Proof. vm_compute. repeat constructor; discriminate. Qed.

(** X9.  Whatever the viewport, as long as it is at least 35 high, every
    bar [update] emits lies inside the plot: its top is not above the
    plot, its height is not negative and its bottom is not below the
    plot. *)
Theorem X9_update_bars_inside_plot (o : VisualUpdateOptions) :
  35 <= height (viewport o) ->
  let h := plotHeight (margins Config) (height (viewport o)) in
  forall r, r ∈ bars (update o) ->
    exists y hh,
      attr_y r = Some y /\ attr_height r = Some hh /\
      0 <= y /\ 0 <= hh /\ y + hh <= h.
Proof.
  intros Hvh h r (d & -> & Hd)%list_elem_of_fmap.
  assert (Hh : 0 <= h) by (unfold h, plotHeight; cbn; lra).
  pose proof testData_totals_in_domain as Hdom.
  rewrite Forall_forall in Hdom. destruct (Hdom d Hd) as [Hmin Hmax].
  assert (H160 : 0 < 160) by lra.
  destruct (bar_extent h 160 (start d) (end_ d) H160) as (Ey & Ehh & Eb & Eh).
  cbv zeta in Ey, Ehh, Eb, Eh.
  assert (HK : 0 <= h * (1 / 160)) by lra.
  eexists. eexists.
  split; [reflexivity|]. split; [reflexivity|].
  change (plotHeight (margins Config) (height (viewport o))) with h.
  split; [|split].
  - rewrite Ey. apply Qmult_le_0_compat; [lra | done].
  - rewrite Ehh. apply Qmult_le_0_compat; [apply Qabs_nonneg | done].
  - rewrite Eb. rewrite Eh at 2.
    apply Qmult_le_compat_r; [lra | done].
Qed.

Lemma X9_update_bars_inside_plot_witness :
  35 <= height (viewport (mkOptions (mkViewport 300 35) [])) /\
  forall r, r ∈ bars (update (mkOptions (mkViewport 300 35) [])) ->
    exists y hh,
      attr_y r = Some y /\ attr_height r = Some hh /\
      0 <= y /\ 0 <= hh /\
      y + hh <= plotHeight (margins Config) 35.
Proof.
  assert (H35 : 35 <= height (viewport (mkOptions (mkViewport 300 35) [])))
    by (cbn; lra).
  split; [exact H35|].
  exact (X9_update_bars_inside_plot (mkOptions (mkViewport 300 35) []) H35).
Defined.

(** ** Where the rects and the axes are placed *)

Lemma index_get_elem (c : string) (domain : list string) :
  c ∈ domain ->
  exists i, d3.index_get c domain = Some i /\ domain !! i = Some c.
Proof.
  induction domain as [|y rest IH]; [by intros ?%elem_of_nil|].
  intros Hc. cbn. case_bool_decide as Heq.
  - exists 0%nat. by rewrite Heq.
  - apply elem_of_cons in Hc as [->|Hc]; [done|].
    destruct (IH Hc) as (i & Hi & Hl). exists (S i). by rewrite Hi.
Qed.

Lemma rangeRoundBands_range_length (x : list string) (interval : Q * Q)
    (padding : Q) :
  length (d3.o_range (d3.rangeRoundBands x interval padding))
  = length (d3.ordinal_domain x).
Proof.
  unfold d3.rangeRoundBands. cbn [d3.o_range].
  destruct (d3.Qlt_bool interval.2 interval.1);
    by rewrite ?length_rev, steps_length.
Qed.

Lemma scale_ordinal_defined (x : list string) (interval : Q * Q)
    (padding : Q) (c : string) :
  c ∈ x -> is_Some (d3.scale_ordinal (d3.rangeRoundBands x interval padding) c).
Proof.
  intros Hc. apply ordinal_domain_elem in Hc.
  destruct (index_get_elem c _ Hc) as (i & Hi & Hl).
  pose proof (lookup_lt_Some _ _ _ Hl) as Hlt.
  unfold d3.scale_ordinal.
  change (d3.o_domain (d3.rangeRoundBands x interval padding))
    with (d3.ordinal_domain x).
  rewrite Hi. cbn [mbind option_bind]. apply lookup_lt_is_Some_2.
  rewrite rangeRoundBands_range_length. apply Nat.mod_upper_bound. lia.
Qed.

(** X10.  The lookup [xScale(d.category)] never misses: for every data set
    and every viewport, also one smaller than the margins, the category of
    each point is in the domain of the category scale at a position inside
    the range array, and the [x] of its bar is the entry at that position,
    not [undefined]. *)
Theorem X10_category_lookup_finds_band (td : list BarChartDataPoint)
    (o : VisualUpdateOptions) (i : nat) (d : BarChartDataPoint) :
  precalculate td !! i = Some d ->
  let xs := xScale (initViewModel td)
              (plotWidth (margins Config) (width (viewport o))) in
  exists k r x,
    d3.index_get (category d) (d3.o_domain xs) = Some k /\
    (k < length (d3.o_range xs))%nat /\
    bars (render td o) !! i = Some r /\
    d3.o_range xs !! k = Some x /\
    attr_x r = Some x.
Proof.
  intros Hd xs.
  assert (Hc : category d ∈ d3.o_domain xs).
  { apply ordinal_domain_elem.
    change (category d ∈ category <$> td).
    rewrite <- precalculate_fmap_category.
    apply list_elem_of_fmap_2. by eapply list_elem_of_lookup_2. }
  destruct (index_get_elem _ _ Hc) as (k & Hk & Hl).
  pose proof (lookup_lt_Some _ _ _ Hl) as Hlt.
  assert (Hlen : length (d3.o_range xs) = length (d3.o_domain xs))
    by apply rangeRoundBands_range_length.
  destruct (lookup_lt_is_Some_2 (d3.o_range xs) k) as [x Hx]; [lia|].
  exists k. eexists. exists x.
  split; [exact Hk|]. split; [lia|].
  rewrite render_bars_lookup, Hd. split; [reflexivity|]. split; [exact Hx|].
  cbn [barAttrs attr_x]. fold xs. unfold d3.scale_ordinal.
  rewrite Hk. cbn [mbind option_bind].
  by rewrite Nat.mod_small by lia.
Qed.

Lemma X10_category_lookup_finds_band_witness :
  let td := [mkDataPoint 5 "a" 0 0 ""; mkDataPoint 7 "a" 0 0 "";
             mkDataPoint 1 "b" 0 0 ""] in
  let o := mkOptions (mkViewport 10 10) [] in
  let xs := xScale (initViewModel td)
              (plotWidth (margins Config) (width (viewport o))) in
  exists k r x,
    d3.index_get "a" (d3.o_domain xs) = Some k /\
    (k < length (d3.o_range xs))%nat /\
    bars (render td o) !! 1%nat = Some r /\
    d3.o_range xs !! k = Some x /\
    attr_x r = Some x.
Proof.
  intros td o xs.
  apply (X10_category_lookup_finds_band td o 1
           (mkDataPoint 7 "a" 5 (5 + 7) "positive")).
  reflexivity.
Defined.

Lemma Math_round_wd (x y : Q) : x == y -> d3.Math_round x = d3.Math_round y.
Proof. intros Hxy. unfold d3.Math_round. by rewrite Hxy. Qed.

Lemma Qfloor_unit (q : Q) : 0 <= q -> q < 1 -> Qfloor q = 0%Z.
Proof.
  intros H0 H1.
  pose proof (Qfloor_resp_le 0 q H0) as Hlo. change (Qfloor 0) with 0%Z in Hlo.
  pose proof (Qfloor_le q) as Hfl.
  assert (Hhi : (Qfloor q < 1)%Z).
  { rewrite Zlt_Qlt. change (inject_Z 1) with 1. lra. }
  lia.
Qed.

(** A plot at least [n + padding] wide has steps of at least 1. *)
Lemma band_step_pos (n : nat) (w p : Q) :
  0 < p -> inject_Z (Z.of_nat n) + p <= w -> 1 <= band_step n w p.
Proof.
  intros Hp Hw. pose proof (inject_nat_nonneg n) as Hn.
  unfold band_step, d3.Math_floor. change 1 with (inject_Z 1).
  rewrite <- Zle_Qle. change 1%Z with (Qfloor 1).
  apply Qfloor_resp_le, Qle_shift_div_l; lra.
Qed.

(** A narrower plot has steps of 0. *)
Lemma band_step_zero (n : nat) (w p : Q) :
  0 < p -> 0 <= w -> w < inject_Z (Z.of_nat n) + p -> band_step n w p = 0.
Proof.
  intros Hp Hw0 Hw. pose proof (inject_nat_nonneg n) as Hn.
  unfold band_step, d3.Math_floor.
  rewrite Qfloor_unit; [done | |].
  - apply Qdiv_nonneg; lra.
  - apply Qlt_shift_div_r; lra.
Qed.

Lemma xScale_point (td : list BarChartDataPoint) (w : Q)
    (d : BarChartDataPoint) :
  0 <= w -> d ∈ td ->
  let xs := xScale (initViewModel td) w in
  let n := length (d3.o_domain xs) in
  exists i,
    d3.o_domain xs !! i = Some (category d) /\
    d3.scale_ordinal xs (category d)
    = Some (band_offset n w (xScalePadding Config)
            + band_step n w (xScalePadding Config) * inject_Z (Z.of_nat i)).
Proof.
  intros Hw Hd xs n.
  assert (Hc : category d ∈ d3.ordinal_domain (category <$> td))
    by (by apply ordinal_domain_elem, list_elem_of_fmap_2).
  apply list_elem_of_lookup in Hc as [i Hi].
  exists i. split; [exact Hi|]. by apply scale_ordinal_band.
Qed.

(** X11.  Points of the same category are drawn at the same [x]; on a plot
    at least [n + padding] wide, for [n] distinct categories, points of
    different categories are drawn at different [x]. *)
Theorem X11_x_identifies_category (td : list BarChartDataPoint) (w : Q)
    (d1 d2 : BarChartDataPoint) :
  d1 ∈ td -> d2 ∈ td ->
  let xs := xScale (initViewModel td) w in
  inject_Z (Z.of_nat (length (d3.o_domain xs))) + xScalePadding Config <= w ->
  (d3.scale_ordinal xs (category d1) = d3.scale_ordinal xs (category d2)
   <-> category d1 = category d2).
Proof.
  intros H1 H2 xs Hwide.
  split; [|by intros ->].
  destruct Config_padding_bounds as [Hp0 _].
  pose proof (inject_nat_nonneg (length (d3.o_domain xs))) as Hn.
  assert (Hw : 0 <= w) by lra.
  destruct (xScale_point td w d1 Hw H1) as (i1 & Hi1 & Hx1).
  destruct (xScale_point td w d2 Hw H2) as (i2 & Hi2 & Hx2).
  fold xs in Hi1, Hi2, Hx1, Hx2. rewrite Hx1, Hx2.
  pose proof (band_step_pos _ w _ Hp0 Hwide) as Hstep.
  intros Heq. apply (inj Some) in Heq.
  assert (Hq : band_step (length (d3.o_domain xs)) w (xScalePadding Config)
               * (inject_Z (Z.of_nat i1) - inject_Z (Z.of_nat i2)) == 0).
  { set (a := band_offset _ _ _) in Heq. set (s := band_step _ _ _) in *.
    assert (HeqQ : a + s * inject_Z (Z.of_nat i1)
                   == a + s * inject_Z (Z.of_nat i2))
      by (by rewrite Heq).
    transitivity ((a + s * inject_Z (Z.of_nat i1))
                  - (a + s * inject_Z (Z.of_nat i2))); [ring|].
    rewrite HeqQ. ring. }
  apply Qmult_integral in Hq as [Hq|Hq]; [lra|].
  assert (Hi : i1 = i2).
  { apply Nat2Z.inj, inject_Z_injective. lra. }
  subst i2. congruence.
Qed.

Lemma X11_x_identifies_category_witness :
  d3.scale_ordinal (xScale (initViewModel testData) 100) "Total"
  = d3.scale_ordinal (xScale (initViewModel testData) 100) "effect1"
  <-> "Total" = "effect1".
Proof.
  apply (X11_x_identifies_category testData 100
           (mkDataPoint 100 "Total" 0 0 "") (mkDataPoint 60 "effect1" 0 0 "")).
  - apply list_elem_of_here.
  - apply list_elem_of_further, list_elem_of_here.
  - vm_compute. discriminate.
Defined.

(** X12.  On a plot narrower than its number [n] of distinct categories
    the bands collapse: the band width is 0 and every point is drawn at the
    same [x], the rounded half of the plot width. *)
Theorem X12_narrow_plot_collapses (td : list BarChartDataPoint) (w : Q) :
  0 <= w ->
  let xs := xScale (initViewModel td) w in
  w < inject_Z (Z.of_nat (length (d3.o_domain xs))) ->
  d3.rangeBand xs == 0 /\
  forall d, d ∈ td ->
    exists x, d3.scale_ordinal xs (category d) = Some x /\
              x == d3.Math_round (w / 2).
Proof.
  intros Hw xs Hn.
  destruct Config_padding_bounds as [Hp0 _].
  assert (Hnarrow : w < inject_Z (Z.of_nat (length (d3.o_domain xs)))
                        + xScalePadding Config) by lra.
  pose proof (band_step_zero _ w _ Hp0 Hw Hnarrow) as Hstep.
  split.
  - unfold d3.rangeBand, xs, xScale, d3.rangeRoundBands. cbn [fst snd].
    assert (Hrev : d3.Qlt_bool w 0 = false) by (by apply Qlt_bool_false).
    rewrite Hrev. cbn [d3.o_rangeBand].
    change (d3.Math_floor _) with
      (band_step (length (d3.o_domain xs)) w (xScalePadding Config)).
    rewrite Hstep.
    by rewrite (Math_round_wd (0 * (1 - xScalePadding Config)) 0) by ring.
  - intros d Hd.
    destruct (xScale_point td w d Hw Hd) as (i & _ & Hx).
    fold xs in Hx. eexists. split; [exact Hx|].
    unfold band_offset. rewrite Hstep.
    rewrite (Math_round_wd _ (w / 2)); [ring|]. field.
Qed.

Lemma X12_narrow_plot_collapses_witness :
  d3.rangeBand (xScale (initViewModel testData) 5) == 0 /\
  forall d, d ∈ testData ->
    exists x,
      d3.scale_ordinal (xScale (initViewModel testData) 5) (category d)
      = Some x /\
      x == d3.Math_round (5 / 2).
Proof.
  apply (X12_narrow_plot_collapses testData 5); [lra | vm_compute; reflexivity].
Defined.

(** X13.  [rangeRoundBands] keeps the bars on whole pixels: on a plot of
    non-negative width the band width and the [x] of every point are whole
    numbers. *)
Theorem X13_bands_on_whole_pixels (td : list BarChartDataPoint) (w : Q) :
  0 <= w ->
  let xs := xScale (initViewModel td) w in
  (exists z : Z, d3.rangeBand xs = inject_Z z) /\
  forall d, d ∈ td ->
    exists (z : Z) (x : Q),
      d3.scale_ordinal xs (category d) = Some x /\ x == inject_Z z.
Proof.
  intros Hw xs. split; [by eexists|].
  intros d Hd.
  destruct (xScale_point td w d Hw Hd) as (i & _ & Hx). fold xs in Hx.
  unfold band_offset, band_step, d3.Math_round, d3.Math_floor in Hx.
  match type of Hx with
  | _ = Some (0 + inject_Z ?a + inject_Z ?b * inject_Z ?c) =>
      exists (a + b * c)%Z
  end.
  eexists. split; [exact Hx|].
  rewrite inject_Z_plus, inject_Z_mult. ring.
Qed.

Lemma X13_bands_on_whole_pixels_witness :
  (exists z : Z, d3.rangeBand (xScale (initViewModel testData) (2011 # 10))
                 = inject_Z z) /\
  forall d, d ∈ testData ->
    exists (z : Z) (x : Q),
      d3.scale_ordinal (xScale (initViewModel testData) (2011 # 10))
                       (category d) = Some x /\
      x == inject_Z z.
Proof.
  apply (X13_bands_on_whole_pixels testData (2011 # 10)). lra.
Defined.

(** X14.  The category axis is drawn on the baseline of the bars: it has
    the horizontal origin of the bars and sits, like them shifted down by
    the top margin, where the value scale puts the value 0, which is the
    bottom margin above the lower edge of the viewport.  The value axis is
    placed at the constant 51, not at the left margin. *)
Theorem X14_category_axis_on_baseline (td : list BarChartDataPoint)
    (o : VisualUpdateOptions) :
  td <> [] ->
  let m := margins Config in
  let h := plotHeight m (height (viewport o)) in
  exists y0,
    yScale (initViewModel td) h 0 = Some y0 /\
    ty (xAxis_transform (render td o)) == y0 + top m /\
    ty (xAxis_transform (render td o)) == height (viewport o) - bottom m /\
    tx (xAxis_transform (render td o)) = left m /\
    (forall r, r ∈ bars (render td o) ->
               attr_transform r = mkTranslate (left m) (top m)) /\
    yAxis_transform (render td o) = mkTranslate 51 (top m).
Proof.
  intros Hne m h.
  destruct (nonempty_dataMax td Hne) as [mx Hmx].
  eexists. split; [apply (yScale_Some td h mx 0 Hmx)|].
  split.
  { rewrite interpolate_range, (uninterpolate_slope mx 0).
    unfold render. cbn [xAxis_transform ty]. fold m h. ring. }
  split; [unfold render, plotHeight; cbn; ring|].
  split; [reflexivity|]. split; [|reflexivity].
  by intros r (d & -> & _)%list_elem_of_fmap.
Qed.

Lemma X14_category_axis_on_baseline_witness :
  let o := mkOptions (mkViewport 145 135) [] in
  exists y0,
    yScale (initViewModel testData) (plotHeight (margins Config) 135) 0
    = Some y0 /\
    ty (xAxis_transform (render testData o)) == y0 + 10 /\
    ty (xAxis_transform (render testData o)) == 135 - 25 /\
    tx (xAxis_transform (render testData o)) = 45 /\
    (forall r, r ∈ bars (render testData o) ->
               attr_transform r = mkTranslate 45 10) /\
    yAxis_transform (render testData o) = mkTranslate 51 10.
Proof.
  apply (X14_category_axis_on_baseline testData
           (mkOptions (mkViewport 145 135) [])).
  discriminate.
Defined.

(** ** The data join on the bar container (lines 198-212) *)

Lemma selectAll_bars (children : list RectElement) :
  Forall is_bar children ->
  forall i, d3_selection.selectAll_from i "bar" children
            = seq i (length children).
Proof.
  induction 1 as [|e rest He _ IH]; intros i; [done|].
  cbn. rewrite He. rewrite bool_decide_eq_true_2 by apply list_elem_of_here.
  by rewrite IH.
Qed.

Lemma bind_closed (children : list RectElement) :
  forall (pre : list RectElement) (dps : list BarChartDataPoint),
    foldl (fun ch '(i, d) => alter (d3_selection.set_data d) i ch)
          (pre ++ children)
          (zip (seq (length pre) (length children)) dps)
    = pre ++ zip_with (fun e d => d3_selection.set_data d e) children dps
          ++ drop (length dps) children.
Proof.
  induction children as [|e rest IH]; intros pre dps.
  - cbn. by rewrite drop_nil.
  - destruct dps as [|d dps]; [done|]. cbn.
    rewrite <- (Nat.add_0_r (length pre)) at 1.
    rewrite alter_app_r. cbn.
    replace (S (length pre)) with (length (pre ++ [d3_selection.set_data d e]))
      by (rewrite length_app; cbn; lia).
    rewrite (cons_middle _ pre rest), app_assoc, IH.
    by rewrite <- app_assoc.
Qed.

Lemma attr_closed (g : RectElement -> RectElement) (l : list RectElement) :
  forall pre suf : list RectElement,
    foldl (fun ch i => alter g i ch) (pre ++ l ++ suf)
          (seq (length pre) (length l))
    = pre ++ (g <$> l) ++ suf.
Proof.
  induction l as [|e rest IH]; intros pre suf; [done|]. cbn.
  rewrite <- (Nat.add_0_r (length pre)) at 1.
  rewrite alter_app_r. cbn.
  replace (S (length pre)) with (length (pre ++ [g e]))
    by (rewrite length_app; cbn; lia).
  rewrite (cons_middle _ pre (rest ++ suf)), app_assoc, IH.
  by rewrite <- app_assoc.
Qed.

Lemma remove_from_none (exiting : list nat) (l : list RectElement) :
  forall i, (forall j, (i <= j < i + length l)%nat -> j ∉ exiting) ->
            d3_selection.remove_from i exiting l = l.
Proof.
  induction l as [|e rest IH]; intros i Hout; [done|]. cbn.
  rewrite bool_decide_eq_false_2 by (apply Hout; cbn; lia).
  rewrite IH; [done|]. intros j Hj. apply Hout. cbn. lia.
Qed.

Lemma remove_from_all (exiting : list nat) (l : list RectElement) :
  forall i, (forall j, (i <= j < i + length l)%nat -> j ∈ exiting) ->
            d3_selection.remove_from i exiting l = [].
Proof.
  induction l as [|e rest IH]; intros i Hin; [done|]. cbn.
  rewrite bool_decide_eq_true_2 by (apply Hin; cbn; lia).
  apply IH. intros j Hj. apply Hin. cbn. lia.
Qed.

Lemma remove_from_app (exiting : list nat) (l1 l2 : list RectElement) :
  forall i, d3_selection.remove_from i exiting (l1 ++ l2)
            = d3_selection.remove_from i exiting l1
              ++ d3_selection.remove_from (i + length l1) exiting l2.
Proof.
  induction l1 as [|e rest IH]; intros i; cbn.
  - by rewrite Nat.add_0_r.
  - rewrite IH. replace (S i + length rest)%nat with (i + S (length rest))%nat
      by lia.
    by destruct (bool_decide (i ∈ exiting)).
Qed.

Lemma bound_bars (f : BarChartDataPoint -> RectAttrs)
    (children : list RectElement) :
  Forall is_bar children ->
  forall dps : list BarChartDataPoint,
    d3_selection.set_attrs f
      <$> zip_with (fun e d => d3_selection.set_data d e) children dps
    = bar_element f <$> take (length children) dps.
Proof.
  induction 1 as [|e rest He _ IH]; intros dps; [done|].
  destruct dps as [|d dps]; [done|]. cbn. rewrite IH. f_equal.
  unfold d3_selection.set_attrs, d3_selection.set_data, bar_element. cbn.
  by rewrite He.
Qed.

Lemma entered_bars (f : BarChartDataPoint -> RectAttrs)
    (dps : list BarChartDataPoint) :
  d3_selection.set_attrs f
    <$> ((fun d => mkRectElement (d3_selection.add_class "bar" []) d None)
           <$> dps)
  = bar_element f <$> dps.
Proof. rewrite <- list_fmap_compose. by apply list_fmap_ext. Qed.

(** The four statements of the join, on a container of bars only: whatever
    the number of rects already there, the container ends up with one rect
    for each datum, in order. *)
Lemma join_result (f : BarChartDataPoint -> RectAttrs)
    (children : list RectElement) (dps : list BarChartDataPoint) :
  Forall is_bar children ->
  let joined :=
    d3_selection.data (d3_selection.selectAll "bar" children) dps children in
  let appended := d3_selection.enter_append "bar" joined.2 joined.1 in
  d3_selection.remove (d3_selection.j_exit joined.2)
    (d3_selection.attr f appended.2 appended.1)
  = bar_element f <$> dps.
Proof.
  intros Hbars joined appended.
  set (n := length children). set (m := length dps).
  set (Z := zip_with (fun e d => d3_selection.set_data d e) children dps).
  assert (HZ : length Z = Nat.min n m) by (unfold Z; apply length_zip_with).
  assert (Hc1 : joined.1 = Z ++ drop m children).
  { unfold joined, d3_selection.data, d3_selection.selectAll. cbn [fst].
    rewrite (selectAll_bars children Hbars 0).
    apply (bind_closed children [] dps). }
  assert (Hup : d3_selection.j_update joined.2 = seq 0 (Nat.min m n)).
  { unfold joined, d3_selection.data, d3_selection.selectAll.
    cbn [snd d3_selection.j_update].
    by rewrite (selectAll_bars children Hbars 0), take_seq. }
  assert (Hen : d3_selection.j_enter joined.2 = drop n dps).
  { unfold joined, d3_selection.data, d3_selection.selectAll.
    cbn [snd d3_selection.j_enter].
    by rewrite (selectAll_bars children Hbars 0), length_seq. }
  assert (Hex : d3_selection.j_exit joined.2 = seq m (n - m)).
  { unfold joined, d3_selection.data, d3_selection.selectAll.
    cbn [snd d3_selection.j_exit].
    by rewrite (selectAll_bars children Hbars 0), drop_seq. }
  unfold appended, d3_selection.enter_append. cbn [fst snd].
  rewrite Hex, Hup, Hen, Hc1.
  unfold d3_selection.remove, d3_selection.attr.
  destruct (Nat.le_gt_cases n m) as [Hle|Hgt].
  - rewrite (drop_ge children m) by (fold n; lia).
    rewrite app_nil_r, HZ, length_drop. fold m.
    rewrite (Nat.min_r m n), (Nat.min_l n m) by done.
    rewrite <- seq_app.
    set (New := (fun d => mkRectElement (d3_selection.add_class "bar" []) d None)
                  <$> drop n dps).
    assert (Hlen : (n + (m - n))%nat = length (Z ++ New)).
    { rewrite length_app, HZ. unfold New.
      rewrite length_fmap, length_drop. fold m. lia. }
    rewrite Hlen.
    pose proof (attr_closed (d3_selection.set_attrs f) (Z ++ New) [] [])
      as Hattr.
    cbn [app length] in Hattr. rewrite app_nil_r in Hattr. rewrite Hattr.
    replace (n - m)%nat with 0%nat by lia. cbn [seq].
    rewrite remove_from_none by (intros j _; apply not_elem_of_nil).
    rewrite fmap_app. unfold Z, New.
    rewrite (bound_bars f children Hbars dps), entered_bars. fold n.
    by rewrite app_nil_r, <- fmap_app, take_drop.
  - rewrite (drop_ge dps n) by (fold m; lia).
    cbn [fmap list_fmap length seq]. rewrite !app_nil_r.
    rewrite (Nat.min_l m n) by lia.
    assert (HZm : length Z = m) by lia.
    pose proof (attr_closed (d3_selection.set_attrs f) Z [] (drop m children))
      as Hattr.
    cbn [app length] in Hattr. rewrite HZm in Hattr. rewrite Hattr.
    rewrite remove_from_app.
    rewrite remove_from_none.
    2:{ intros j Hj. rewrite length_fmap, HZm in Hj.
        rewrite elem_of_seq. lia. }
    rewrite remove_from_all.
    2:{ intros j Hj. rewrite length_fmap, HZm, length_drop in Hj. fold n in Hj.
        rewrite elem_of_seq. lia. }
    rewrite app_nil_r. unfold Z.
    rewrite (bound_bars f children Hbars dps). fold n.
    by rewrite take_ge by (fold m; lia).
Qed.

(** [render_on] in closed form, on a container of bars only. *)
Lemma render_on_closed {IVisualHost : Type} (this : BarChart.t IVisualHost)
    (td : list BarChartDataPoint) (o : VisualUpdateOptions) :
  Forall is_bar (BarChart.barContainer this) ->
  let m := margins Config in
  let h := plotHeight m (height (viewport o)) in
  let w := plotWidth m (width (viewport o)) in
  let vm := initViewModel td in
  BarChart.render_on this td o
  = {| BarChart.this_host := BarChart.this_host this;
       BarChart.svg_classes := BarChart.svg_classes this;
       BarChart.svg_attrs := Some (svg_size (render td o));
       BarChart.barContainer_classes := BarChart.barContainer_classes this;
       BarChart.barContainer :=
         bar_element (barAttrs (xScale vm w) (yScale vm h) m h)
           <$> precalculate td;
       BarChart.xAxis :=
         mkAxisGroup (g_classes (BarChart.xAxis this))
           (Some (axis_font_size (render td o)))
           (Some (xAxis_transform (render td o)))
           (Some (OrdinalScale (xScale vm w), "bottom"));
       BarChart.yAxis :=
         mkAxisGroup (g_classes (BarChart.yAxis this))
           (Some (axis_font_size (render td o)))
           (Some (yAxis_transform (render td o)))
           (Some (LinearScale (dataMin vm, dataMax vm) (h, 0), "left")) |}.
Proof.
  intros Hbars m h w vm.
  pose proof (join_result (barAttrs (xScale vm w) (yScale vm h) m h)
                (BarChart.barContainer this) (precalculate td) Hbars) as Hjoin.
  cbv zeta in Hjoin. unfold BarChart.render_on.
  change (dataPoints (initViewModel td)) with td.
  fold m. fold h w. fold vm.
  destruct (d3_selection.data _ (precalculate td) _) as [c1 j].
  cbn [fst snd] in Hjoin.
  destruct (d3_selection.enter_append "bar" j c1) as [c2 merged].
  cbn [fst snd] in Hjoin. by rewrite Hjoin.
Qed.

(** X15.  On a container of bars, however many, the join leaves one rect
    for each data point, in order: missing rects are appended, surplus
    rects removed.  Each rect is bound to its enriched point and carries
    the attributes computed for that point. *)
Theorem X15_one_rect_per_point {IVisualHost : Type}
    (this : BarChart.t IVisualHost) (td : list BarChartDataPoint)
    (o : VisualUpdateOptions) :
  Forall is_bar (BarChart.barContainer this) ->
  let next := BarChart.render_on this td o in
  length (BarChart.barContainer next) = length td /\
  Forall is_bar (BarChart.barContainer next) /\
  node_data <$> BarChart.barContainer next = precalculate td /\
  node_attrs <$> BarChart.barContainer next = Some <$> bars (render td o).
Proof.
  intros Hbars next. unfold next.
  rewrite (render_on_closed this td o Hbars). cbn [BarChart.barContainer].
  split; [by rewrite length_fmap, precalculate_length|].
  split; [by apply Forall_fmap, Forall_true|].
  split.
  - rewrite <- list_fmap_compose. apply list_fmap_id.
  - unfold render. cbn [bars]. by rewrite <- !list_fmap_compose.
Qed.

Lemma X15_one_rect_per_point_witness :
  let six := BarChart.update (BarChart.constructor (BarChart.mkConstructorOptions tt tt))
               (mkOptions (mkViewport 300 200) []) in
  let td := [mkDataPoint 5 "a" 0 0 ""; mkDataPoint 7 "b" 0 0 ""] in
  let o := mkOptions (mkViewport 400 300) [] in
  let next := BarChart.render_on six td o in
  length (BarChart.barContainer six) = 6%nat /\
  length (BarChart.barContainer next) = length td /\
  Forall is_bar (BarChart.barContainer next) /\
  node_data <$> BarChart.barContainer next = precalculate td /\
  node_attrs <$> BarChart.barContainer next = Some <$> bars (render td o).
Proof.
  intros six td o next. split; [reflexivity|].
  apply (X15_one_rect_per_point six td o).
  repeat constructor.
Defined.

Lemma update_same_frame {IVisualHost : Type} (v0 v : BarChart.t IVisualHost)
    (o : VisualUpdateOptions) :
  Forall is_bar (BarChart.barContainer v0) ->
  same_frame v v0 ->
  BarChart.update v o = BarChart.update v0 o /\
  same_frame (BarChart.update v o) v0.
Proof.
  intros Hb0 (Hh & Hs & Hc & Hx & Hy & Hb).
  unfold BarChart.update.
  rewrite (render_on_closed v testData o Hb),
    (render_on_closed v0 testData o Hb0).
  rewrite Hh, Hs, Hc, Hx, Hy. split; [done|].
  unfold same_frame.
  cbn [BarChart.this_host BarChart.svg_classes BarChart.barContainer_classes
       BarChart.xAxis BarChart.yAxis BarChart.barContainer g_classes].
  repeat split. by apply Forall_fmap, Forall_true.
Qed.

Lemma updates_same_frame {IVisualHost : Type} (v0 : BarChart.t IVisualHost)
    (os : list VisualUpdateOptions) :
  Forall is_bar (BarChart.barContainer v0) ->
  forall v, same_frame v v0 -> same_frame (foldl BarChart.update v os) v0.
Proof.
  intros Hb0. induction os as [|o os IH]; intros v Hv; [done|].
  cbn. apply IH. by apply update_same_frame.
Qed.

(** X16.  The visual keeps no history: after any sequence of updates, the
    elements are those a single update with the last options leaves on a
    freshly constructed visual. *)
Theorem X16_last_update_wins {HTMLElement IVisualHost : Type}
    (options : BarChart.VisualConstructorOptions HTMLElement IVisualHost)
    (os : list VisualUpdateOptions) (o : VisualUpdateOptions) :
  foldl BarChart.update (BarChart.constructor options) (os ++ [o])
  = BarChart.update (BarChart.constructor options) o.
Proof.
  rewrite foldl_snoc.
  assert (Hb0 : Forall is_bar
                  (BarChart.barContainer (BarChart.constructor options)))
    by constructor.
  apply update_same_frame; [done|].
  apply updates_same_frame; [done|].
  by repeat split.
Qed.

(** X17.  The join re-uses the rects: on a container of bars an update
    creates only the rects that are missing and removes only those in
    excess of the six data points, and the update after it creates and
    removes none, binding all six in place. *)
Theorem X17_rects_are_reused {IVisualHost : Type}
    (this : BarChart.t IVisualHost) (o : VisualUpdateOptions) :
  Forall is_bar (BarChart.barContainer this) ->
  let join children :=
    (d3_selection.data (d3_selection.selectAll "bar" children)
                       (precalculate testData) children).2 in
  let j := join (BarChart.barContainer this) in
  let j' := join (BarChart.barContainer (BarChart.update this o)) in
  length (d3_selection.j_enter j)
  = (6 - length (BarChart.barContainer this))%nat /\
  length (d3_selection.j_exit j)
  = (length (BarChart.barContainer this) - 6)%nat /\
  d3_selection.j_enter j' = [] /\ d3_selection.j_exit j' = [] /\
  d3_selection.j_update j' = seq 0 6.
Proof.
  intros Hbars join j j'.
  assert (Hsel : forall ch, Forall is_bar ch ->
            d3_selection.selectAll "bar" ch = seq 0 (length ch))
    by (intros ch Hch; apply (selectAll_bars ch Hch 0)).
  assert (Hnext : BarChart.barContainer (BarChart.update this o)
                  = bar_element
                      (barAttrs
                         (xScale (initViewModel testData)
                            (plotWidth (margins Config) (width (viewport o))))
                         (yScale (initViewModel testData)
                            (plotHeight (margins Config) (height (viewport o))))
                         (margins Config)
                         (plotHeight (margins Config) (height (viewport o))))
                    <$> precalculate testData).
  { unfold BarChart.update. by rewrite (render_on_closed this testData o Hbars). }
  unfold j, j', join, d3_selection.data.
  cbn [snd d3_selection.j_enter d3_selection.j_exit d3_selection.j_update].
  rewrite (Hsel _ Hbars), Hnext.
  rewrite Hsel by (by apply Forall_fmap, Forall_true).
  rewrite !length_fmap, !length_seq, !length_drop, !precalculate_length.
  rewrite length_seq.
  change (length testData) with 6%nat.
  split; [done|]. split; [lia|].
  split; [apply drop_ge; by rewrite precalculate_length|].
  split; reflexivity.
Qed.

Lemma X17_rects_are_reused_witness :
  let this := BarChart.constructor (BarChart.mkConstructorOptions tt tt) in
  let o := mkOptions (mkViewport 300 200) [] in
  let join children :=
    (d3_selection.data (d3_selection.selectAll "bar" children)
                       (precalculate testData) children).2 in
  let j := join (BarChart.barContainer this) in
  let j' := join (BarChart.barContainer (BarChart.update this o)) in
  length (d3_selection.j_enter j)
  = (6 - length (BarChart.barContainer this))%nat /\
  length (d3_selection.j_exit j)
  = (length (BarChart.barContainer this) - 6)%nat /\
  d3_selection.j_enter j' = [] /\ d3_selection.j_exit j' = [] /\
  d3_selection.j_update j' = seq 0 6.
Proof.
  apply (X17_rects_are_reused
           (BarChart.constructor (BarChart.mkConstructorOptions tt tt))
           (mkOptions (mkViewport 300 200) [])).
  constructor.
Defined.

(** ** Degenerate domains of the value scale *)








(** ** A plot of negative width *)

Lemma Math_floor_wd (x y : Q) : x == y -> d3.Math_floor x = d3.Math_floor y.
Proof. intros Hxy. unfold d3.Math_floor. by rewrite Hxy. Qed.

(** X20.  On a viewport narrower than the left margin the plot width is
    negative and [rangeRoundBands] lays the bands out mirrored: they keep a
    non-negative width, at most one step, and the categories run from
    right to left, the first category at the largest [x], without
    overlap. *)
Theorem X20_negative_width_mirrors (td : list BarChartDataPoint) (w : Q) :
  w < 0 ->
  let xs := xScale (initViewModel td) w in
  let n := length (d3.o_domain xs) in
  exists base step : Q,
    0 <= d3.rangeBand xs <= step /\
    (forall i c, d3.o_domain xs !! i = Some c ->
       d3.scale_ordinal xs c
       = Some (base + step * inject_Z (Z.of_nat (n - S i)))) /\
    (forall i j ci cj xi xj,
       (i < j)%nat ->
       d3.o_domain xs !! i = Some ci -> d3.o_domain xs !! j = Some cj ->
       d3.scale_ordinal xs ci = Some xi -> d3.scale_ordinal xs cj = Some xj ->
       xj + d3.rangeBand xs <= xi).
Proof.
  intros Hw xs n.
  destruct Config_padding_bounds as [Hp0 Hp1].
  set (p := xScalePadding Config) in *.
  set (step := band_step n (- w) p).
  assert (Hrev : d3.Qlt_bool w 0 = true) by (by apply Qlt_bool_true).
  assert (Hstep : d3.Math_floor
                    ((0 - w) / (inject_Z (Z.of_nat n) - p + 2 * p)) = step).
  { unfold step, band_step. apply Math_floor_wd. field.
    pose proof (inject_nat_nonneg n). lra. }
  set (base := w + d3.Math_round
                     ((0 - w - (inject_Z (Z.of_nat n) - p) * step) / 2)).
  assert (Hxs : xs = {| d3.o_domain := d3.ordinal_domain (category <$> td);
                        d3.o_range := rev (d3.steps n base step);
                        d3.o_rangeBand := d3.Math_round (step * (1 - p)) |}).
  { unfold xs at 1, xScale, d3.rangeRoundBands. cbn [fst snd].
    rewrite Hrev. fold p.
    change (length (d3.ordinal_domain
                      (category <$> dataPoints (initViewModel td)))) with n.
    by rewrite Hstep. }
  assert (Hband : 0 <= d3.rangeBand xs <= step).
  { rewrite Hxs. unfold d3.rangeBand. cbn [d3.o_rangeBand].
    apply band_width_bounds; [lra | done | done]. }
  assert (Hscale : forall i c, d3.o_domain xs !! i = Some c ->
            d3.scale_ordinal xs c
            = Some (base + step * inject_Z (Z.of_nat (n - S i)))).
  { intros i c Hc.
    pose proof (lookup_lt_Some _ _ _ Hc) as Hi. fold n in Hi.
    rewrite Hxs in Hc |- *. unfold d3.scale_ordinal.
    cbn [d3.o_domain d3.o_range] in Hc |- *.
    rewrite (index_get_lookup _ (ordinal_domain_NoDup _) i c Hc).
    cbn [mbind option_bind].
    rewrite length_rev, steps_length, Nat.mod_small by done.
    rewrite rev_alt. change (rev_append ?l []) with (reverse l).
    rewrite reverse_lookup by (by rewrite steps_length).
    rewrite steps_length. apply steps_lookup. lia. }
  exists base, step. split; [done|]. split; [done|].
  intros i j ci cj xi xj Hij Hi Hj Hxi Hxj.
  pose proof (lookup_lt_Some _ _ _ Hj) as Hjn. fold n in Hjn.
  rewrite (Hscale i ci Hi) in Hxi. rewrite (Hscale j cj Hj) in Hxj.
  injection Hxi as <-. injection Hxj as <-.
  pose proof (inject_nat_lt (n - S j) (n - S i) ltac:(lia)) as Hlt.
  assert (Hs : 0 <= step) by lra.
  assert (Hm : step * (inject_Z (Z.of_nat (n - S j)) + 1)
               <= step * inject_Z (Z.of_nat (n - S i))).
  { rewrite !(Qmult_comm step). by apply Qmult_le_compat_r. }
  assert (Heq : step * (inject_Z (Z.of_nat (n - S j)) + 1)
                == step * inject_Z (Z.of_nat (n - S j)) + step) by ring.
  rewrite Heq in Hm. lra.
Qed.

Lemma X20_negative_width_mirrors_witness :
  let xs := xScale (initViewModel testData) (-35) in
  exists base step : Q,
    0 <= d3.rangeBand xs <= step /\
    (forall i c, d3.o_domain xs !! i = Some c ->
       d3.scale_ordinal xs c
       = Some (base + step * inject_Z (Z.of_nat (length (d3.o_domain xs) - S i)))) /\
    (forall i j ci cj xi xj,
       (i < j)%nat ->
       d3.o_domain xs !! i = Some ci -> d3.o_domain xs !! j = Some cj ->
       d3.scale_ordinal xs ci = Some xi -> d3.scale_ordinal xs cj = Some xj ->
       xj + d3.rangeBand xs <= xi).
Proof.
  apply (X20_negative_width_mirrors testData (-35)). lra.
Defined.
